(** * Kernels, covariance builder and acquisition functions of [help_functions.py]

    A shallow embedding of the numerical core of the Bayesian-optimisation
    helper module, and the properties its specification states about it.

    Numbers.  Every scalar of the source is an IEEE-754 binary64 value (a
    Python float or a [numpy.float64]); it is modelled by Rocq's primitive
    [float], whose [+ - * / sqrt] and comparisons are the binary64 operations,
    with signed zeros, infinities and NaN.  Integer literals of the source
    ([0], [1], [2], [5], [3]) are the corresponding floats, to which Python
    converts them in mixed arithmetic; [5/3] is the true division of Python 3.
    The four operations never raise where the source uses them: a product or
    a sum that overflows is an infinity, and the divisions that can meet a
    zero divisor are numpy's, which yield an infinity or NaN.  [math.sqrt]
    raises [ValueError] on a negative argument.

    Arrays.  A one-dimensional numpy array is a [list float], a two-dimensional
    one a list of rows.  An operation that raises ([IndexError], [ValueError])
    returns [None].

    External functions.  [math.exp], [scipy.stats.norm.cdf]/[pdf], the power
    [x ** 2] of a Python float and [numpy.dot] are not part of the module:
    they are parameters of the definitions that call them, and a theorem
    states the facts about them that it uses.  [x ** 2] is C's [pow], which
    need not return the product [x * x] to the last bit, and CPython raises
    [OverflowError] when it overflows.  [numpy.dot] is a BLAS routine: the
    order in which it adds the products, and how it rounds them, are the
    library's.  [math.exp] raises only when its result overflows; the kernels
    call it on arguments that are never above zero (lemmas
    [squared_exp_exponent_not_positive] and
    [ARD_matern_exponent_not_positive]), so it is a total function here. *)

From Stdlib Require Import ZArith Lia Bool List.
From Stdlib Require Import Floats.
From stdpp Require Import base option list.

Local Open Scope float_scope.

(** ** numpy and math primitives used by the module *)

(** A point, or any one-dimensional array. *)
Abbreviation point := (list float).

(** [numpy.zeros(n)]. *)
Definition np_zeros (n : nat) : list float := replicate n 0.

(** An arithmetic operator between two one-dimensional arrays: elementwise on
    equal lengths; an array of length one is broadcast against the other;
    otherwise [ValueError]. *)
Definition np_binop (f : float -> float -> float) (a b : point) : option point :=
  if decide (length a = length b) then Some (zip_with f a b)
  else match a, b with
       | [x], _ => Some (map (fun y => f x y) b)
       | _, [y] => Some (map (fun x => f x y) a)
       | _, _ => None
       end.

(** [a - b] and [a / b] on arrays. *)
Definition np_sub : point -> point -> option point := np_binop sub.
Definition np_div : point -> point -> option point := np_binop div.

(** [numpy.dot(a, b)] on one-dimensional arrays: unequal lengths raise
    [ValueError]; on equal lengths the value is the one of the BLAS routine
    [dot]. *)
Definition np_dot (dot : point -> point -> float) (a b : point) : option float :=
  if decide (length a = length b) then Some (dot a b) else None.

(** [math.sqrt]: [ValueError] on a negative number (also on minus infinity);
    NaN and the two zeros pass through. *)
Definition math_sqrt (x : float) : option float :=
  if x <? 0 then None else Some (sqrt x).

(** [a[mask]] for a boolean mask: the entries where the mask is true, in order;
    a mask of another length raises [IndexError]. *)
Fixpoint bool_index {A : Type} (a : list A) (mask : list bool) : option (list A) :=
  match a, mask with
  | [], [] => Some []
  | x :: a', b :: mask' =>
      r ← bool_index a' mask'; Some (if b then x :: r else r)
  | _, _ => None
  end.

(** [a[mask] = vals]: the entries where the mask is true are overwritten with
    the entries of [vals], in order.  The mask must be as long as [a] and
    [vals] as long as the number of true entries (numpy would also spread a
    single value over several entries; no caller relies on that). *)
Fixpoint mask_assign {A : Type} (a : list A) (mask : list bool) (vals : list A)
  : option (list A) :=
  match a, mask with
  | [], [] => match vals with [] => Some [] | _ :: _ => None end
  | x :: a', true :: mask' =>
      match vals with
      | v :: vals' => r ← mask_assign a' mask' vals'; Some (v :: r)
      | [] => None
      end
  | x :: a', false :: mask' => r ← mask_assign a' mask' vals; Some (x :: r)
  | _, _ => None
  end.

(** [l[i] = v] on a list standing for an array: [IndexError] out of range. *)
Definition setitem {A : Type} (l : list A) (i : nat) (v : A) : option (list A) :=
  if decide (i < length l)%nat then Some (<[i := v]> l) else None.

(** [M[i, j] = v] on a two-dimensional array. *)
Definition setitem2 {A : Type} (M : list (list A)) (i j : nat) (v : A)
  : option (list (list A)) :=
  r ← M !! i; r' ← setitem r j v; setitem M i r'.

(** ** Kernels *)

(** [class kernels]: the output scale [t] and the length scale [l], Python
    floats (an integer scale stands for the float it converts to). *)
Record kernels := { t : float; l : float }.

Section Kernels.
(** [math.exp]. *)
Variable exp : float -> float.
(** [x ** 2] on a Python float; [None] is [OverflowError]. *)
Variable pow2 : float -> option float.
(** The routine behind [numpy.dot], on two arrays of one length. *)
Variable dot : point -> point -> float.
Variable self : kernels.

(** [(self.t**2) * exp(-numpy.dot(x1 - x2, x1 - x2) / (2 * self.l**2))],
    evaluated from the left. *)
Definition squared_exp (x1 x2 : point) : option float :=
  t2 ← pow2 (t self);
  d ← np_sub x1 x2;
  dd ← np_dot dot d d;
  l2 ← pow2 (l self);
  Some (t2 * exp (- dd / (2 * l2))).

(** [r2 = numpy.dot(x1 - x2, x1 - x2) / (self.l**2)]
    [(self.t ** 2) * (1 + sqrt(5 * r2) + (5/3) * r2) * exp(-sqrt(5 * r2))] *)
Definition ARD_matern (x1 x2 : point) : option float :=
  d ← np_sub x1 x2;
  dd ← np_dot dot d d;
  l2 ← pow2 (l self);
  let r2 := dd / l2 in
  t2 ← pow2 (t self);
  s1 ← math_sqrt (5 * r2);
  s2 ← math_sqrt (5 * r2);
  Some (t2 * (1 + s1 + (5 / 3) * r2) * exp (- s2)).

(** [self.t * numpy.dot(x1, x2)] *)
Definition trivial (x1 x2 : point) : option float :=
  p ← np_dot dot x1 x2; Some (t self * p).
End Kernels.

(** ** Covariance builder *)

(** The arrays [covariance] receives and returns: one- or two-dimensional. *)
Inductive ndarray :=
  | Arr1 (v : list float)
  | Arr2 (rows : list (list float)).

(** The [try: X.shape[1] except: X = X.reshape((1, len(X)))] prologue: a
    one-dimensional array has no [shape[1]] and becomes a one-row matrix. *)
Definition as_rows (X : ndarray) : list point :=
  match X with
  | Arr1 v => [v]
  | Arr2 rows => rows
  end.

Section Covariance.
(** The kernel is any callable on two rows; it may raise. *)
Variable kernel : point -> point -> option float.

(** One pass of the loop body [M[row] = kernel(X1[row, :], X2[row, :])]. *)
Definition fast_body (X1 X2 : list point) (M : option (list float)) (row : nat)
  : option (list float) :=
  M ← M; a ← X1 !! row; b ← X2 !! row; k ← kernel a b; setitem M row k.

(** [M = numpy.zeros(len(X1)); for row in range(len(X2)): ...] *)
Definition covariance_fast (X1 X2 : list point) : option (list float) :=
  foldl (fast_body X1 X2) (Some (np_zeros (length X1))) (seq 0 (length X2)).

(** One pass of [M[row1, row2] = kernel(X1[row1, :], X2[row2, :])]. *)
Definition full_body (X1 X2 : list point) (row1 : nat)
    (M : option (list (list float))) (row2 : nat) : option (list (list float)) :=
  M ← M; a ← X1 !! row1; b ← X2 !! row2; k ← kernel a b; setitem2 M row1 row2 k.

(** [M = numpy.zeros((len(X1), len(X2)))] and the two nested loops. *)
Definition covariance_full (X1 X2 : list point) : option (list (list float)) :=
  foldl (fun M row1 => foldl (full_body X1 X2 row1) M (seq 0 (length X2)))
        (Some (replicate (length X1) (np_zeros (length X2))))
        (seq 0 (length X1)).

Definition covariance (X1 X2 : ndarray) (fast : bool) : option ndarray :=
  let X1 := as_rows X1 in
  let X2 := as_rows X2 in
  if fast then Arr1 <$> covariance_fast X1 X2
  else Arr2 <$> covariance_full X1 X2.
End Covariance.

(** ** Acquisition functions *)

(** [class acquisition]: the exploration constant [kappa]. *)
Record acquisition := { kappa : float }.

(** The Gaussian process as the module uses it: [gp.sample_predict(x)] returns
    the posterior mean and variance at [x]. *)
Record gaussian_process := { sample_predict : point -> float * float }.

Section Acquisition.
(** [scipy.stats.norm.cdf] and [scipy.stats.norm.pdf]. *)
Variables norm_cdf norm_pdf : float -> float.
Variable self : acquisition.

Definition UCB (x : point) (gp : gaussian_process) (ymax : float) : option float :=
  let '(mean, var) := sample_predict gp x in
  s ← math_sqrt var;
  Some (mean + kappa self * s).

Definition EI (x : point) (gp : gaussian_process) (ymax : float) : option float :=
  let '(mean, var) := sample_predict gp x in
  if var =? 0 then Some 0
  else
    s ← math_sqrt var;
    let Z := (mean - ymax) / s in
    s' ← math_sqrt var;
    Some ((mean - ymax) * norm_cdf Z + s' * norm_pdf Z).

Definition PoI (x : point) (gp : gaussian_process) (ymax : float) : option float :=
  let '(mean, var) := sample_predict gp x in
  if var =? 0 then Some 1
  else
    s ← math_sqrt var;
    let Z := (mean - ymax) / s in
    Some (norm_cdf Z).

(** The expected improvement of one entry, given its mean and the square root
    of its variance: [(mean - ymax) * norm.cdf(Z) + sd * norm.pdf(Z)] with
    [Z = (mean - ymax) / sd]. *)
Definition ei_entry (ymax mean sd : float) : float :=
  let Z := (mean - ymax) / sd in
  (mean - ymax) * norm_cdf Z + sd * norm_pdf Z.

(** [full_EI]: the result starts as zeros; [var] is replaced by its
    elementwise square root; the entries selected by the mask [var > 0] are
    computed on the compressed arrays and written back through the mask.
    The two compressed arrays come from one mask, so they have one length
    and the arithmetic between them is elementwise. *)
Definition full_EI (ymax : float) (mean var : list float) : option (list float) :=
  let ei := np_zeros (length mean) in
  let var := map sqrt var in
  let mask := map (fun s => 0 <? s) var in
  mean_sel ← bool_index mean mask;
  var_sel ← bool_index var mask;
  let Z := zip_with (fun m s => (m - ymax) / s) mean_sel var_sel in
  let lhs := zip_with (fun m z => (m - ymax) * norm_cdf z) mean_sel Z in
  let rhs := zip_with (fun s z => s * norm_pdf z) var_sel Z in
  mask_assign ei mask (zip_with add lhs rhs).

(** [full_PoI]: [gamma = (mean - ymax) / numpy.sqrt(var)], then [norm.cdf]
    elementwise; no entry is excluded. *)
Definition full_PoI (ymax : float) (mean var : list float) : option (list float) :=
  let var := map sqrt var in
  gamma ← np_div (map (fun m => m - ymax) mean) var;
  Some (map norm_cdf gamma).
End Acquisition.

(** ** Definitions the statements use *)

(** The number of points of a point set, after the reshaping prologue. *)
Definition n_points (X : ndarray) : nat := length (as_rows X).

(** The value of the kernel on row [i] of [X1] and row [j] of [X2]. *)
Definition kval (kernel : point -> point -> option float) (X1 X2 : list point)
    (i j : nat) : float :=
  default 0 (a ← X1 !! i; b ← X2 !! j; kernel a b).

(** The kernel returns on the pair of rows [(i, j)]. *)
Definition returns_at (kernel : point -> point -> option float) (X1 X2 : list point)
    (i j : nat) : Prop :=
  forall a b, X1 !! i = Some a -> X2 !! j = Some b -> is_Some (kernel a b).

(** The points of a point set, read from the specification: a matrix holds
    one point per row, and a bare one-dimensional vector is a single point. *)
Definition spec_points (X : ndarray) : list point :=
  match X with
  | Arr2 rows => rows
  | Arr1 v => [v]
  end.

(** The squared Euclidean norm, as the specification writes it: the sum of
    the squares of the coordinates. *)
Definition sq_norm (v : point) : float := foldl (fun acc x => acc + x * x) 0 v.

(** [t² · exp(−‖x1−x2‖² / (2·l²))], read from the specification, with the
    squares written as products. *)
Definition squared_exp_spec (exp : float -> float) (k : kernels) (x1 x2 : point) : float :=
  (t k * t k) * exp (- (sq_norm (zip_with sub x1 x2) / (2 * (l k * l k)))).

(** *** Facts about the external functions that the statements assume *)

(** A value without a minus sign: NaN, or a number with a clear sign bit (not
    below zero, and not [-0.0]). *)
Definition no_minus_sign (x : float) : Prop := abs x = x.

(** [numpy.dot(a, b)] is [numpy.dot(b, a)]. *)
Definition dot_symmetric (dot : point -> point -> float) : Prop :=
  forall a b, dot a b = dot b a.

(** [numpy.dot(d, d)] does not depend on the signs of the entries of [d]. *)
Definition dot_self_even (dot : point -> point -> float) : Prop :=
  forall d d', Forall2 (fun u v => v = u \/ v = - u) d d' -> dot d d = dot d' d'.

(** [numpy.dot] of an array of zeros with itself is zero. *)
Definition dot_self_zeros (dot : point -> point -> float) : Prop :=
  forall n, dot (replicate n 0) (replicate n 0) = 0.

(** [numpy.dot(d, d)] has no minus sign. *)
Definition dot_self_no_minus (dot : point -> point -> float) : Prop :=
  forall d, no_minus_sign (dot d d).

(** A square [x ** 2] has no minus sign. *)
Definition pow2_no_minus (pow2 : float -> option float) : Prop :=
  forall x r, pow2 x = Some r -> no_minus_sign r.

(** What [full_EI] leaves at an index, from the mean and the square root of
    the variance there. *)
Definition ei_masked (norm_cdf norm_pdf : float -> float) (ymax m s : float) : float :=
  if 0 <? s then ei_entry norm_cdf norm_pdf ymax m s else 0.

(** ** Stand-ins for the external functions

    Step functions that agree with [math.exp], [norm.cdf] and [norm.pdf] at
    the zeros, the infinities and NaN, where those have exact values; the
    product [x * x] for [x ** 2], raising where the product of a finite
    number overflows; and for [numpy.dot] the sum of the products
    accumulated from the left.  The stand-ins show that the facts assumed of
    the external functions hold together, and serve to run the definitions
    on concrete inputs: small numbers, whose squares, products and sums are
    exact in binary64 whatever the order and the rounding. *)

Definition pow2_step (x : float) : option float :=
  if is_finite x && is_infinity (x * x) then None else Some (x * x).

Definition dot_sum (a b : point) : float :=
  foldl (fun acc xy => acc + fst xy * snd xy) 0 (zip a b).

Definition exp_step (x : float) : float :=
  if is_nan x then nan
  else if x =? 0 then 1
  else if x <? 0 then (if x =? neg_infinity then 0 else 0.5)
  else (if x =? infinity then infinity else 2).

Definition cdf_step (x : float) : float :=
  if is_nan x then nan
  else if x =? 0 then 0.5
  else if x <? 0 then (if x =? neg_infinity then 0 else 0.25)
  else (if x =? infinity then 1 else 0.75).

Definition pdf_step (x : float) : float :=
  if is_nan x then nan
  else if is_infinity x then 0
  else 0.25.

(** ** Statements of the specification that the code does not satisfy as written

    Each is the claim as the specification states it; a counterexample below
    refutes it and a theorem proves what holds instead. *)


(** [squared_exp] returns the formula for every [t] and [l], with the
    formula read in binary64 as [squared_exp_spec]; [**] is any function
    that, as CPython's, raises on the square of [2^600]. *)
Definition C6_claim : Prop :=
  forall (exp : float -> float) (pow2 : float -> option float)
         (dot : point -> point -> float),
    pow2 0x1p+600 = None ->
    forall (k : kernels) (x1 x2 : point),
      length x1 = length x2 ->
      squared_exp exp pow2 dot k x1 x2 = Some (squared_exp_spec exp k x1 x2).

(** Self-similarity for every [t], every [l] and every point: the value is
    the square of [t], whenever that square is computed. *)
Definition C7_claim : Prop :=
  forall (exp : float -> float) (pow2 : float -> option float)
         (dot : point -> point -> float),
    exp 0 = 1 -> exp (-0) = 1 -> dot_self_zeros dot ->
    forall (k : kernels) (x : point) (t2 : float),
      pow2 (t k) = Some t2 ->
      squared_exp exp pow2 dot k x x = Some t2 /\
      ARD_matern exp pow2 dot k x x = Some t2.

(** The three kernels return a nonnegative number. *)
Definition C8_claim : Prop :=
  forall (exp : float -> float) (pow2 : float -> option float)
         (dot : point -> point -> float),
    (forall x, (exp x <? 0) = false) -> pow2_no_minus pow2 ->
    dot_self_no_minus dot ->
    forall (k : kernels) (x1 x2 : point), length x1 = length x2 ->
      (forall r, squared_exp exp pow2 dot k x1 x2 = Some r -> (0 <=? r) = true) /\
      (forall r, ARD_matern exp pow2 dot k x1 x2 = Some r -> (0 <=? r) = true) /\
      (forall r, trivial dot k x1 x2 = Some r -> (0 <=? r) = true).

(** Unequal lengths never give a result in fast mode. *)
Definition C9_claim : Prop :=
  forall (kernel : point -> point -> option float) (A B : ndarray),
    n_points A <> n_points B -> covariance kernel A B true = None.

(** * The rest of the module

    The functions of the module that the statements of the specification
    checked below do not reach. *)

(** ** Sample covariance *)

(** [a.reshape(n)] of a one-dimensional array: [ValueError] unless it has [n]
    entries. *)
Definition np_reshape1 (a : list float) (n : nat) : option (list float) :=
  if decide (length a = n) then Some a else None.

(** [len(X)] of an array. *)
Definition np_len (X : ndarray) : nat :=
  match X with
  | Arr1 v => length v
  | Arr2 rows => length rows
  end.

(** [X[row, :]]: a row of a two-dimensional array; a one-dimensional array
    cannot take two indices ([IndexError]). *)
Definition np_row (X : ndarray) (row : nat) : option point :=
  match X with
  | Arr1 _ => None
  | Arr2 rows => rows !! row
  end.

Section SampleCovariance.
Variable kernel : point -> point -> option float.

(** One pass of the loop body [M[row] = kernel(X1[row, :], sample)]. *)
Definition sample_body (X1 : ndarray) (sample : point) (M : option (list float))
    (row : nat) : option (list float) :=
  M ← M; a ← np_row X1 row; k ← kernel a sample; setitem M row k.

(** [M = numpy.zeros(len(X1)); for row in range(len(X1)): ...;
    return M.reshape(len(X1))].  There is no reshaping prologue. *)
Definition sample_covariance (X1 : ndarray) (sample : point) : option (list float) :=
  M ← foldl (sample_body X1 sample) (Some (np_zeros (np_len X1))) (seq 0 (np_len X1));
  np_reshape1 M (np_len X1).
End SampleCovariance.

(** ** Bulk upper confidence bound *)

(** [mean = mean.reshape(len(mean))]
    [return (mean + self.kappa * numpy.sqrt(var)).reshape(len(mean))] *)
Definition full_UCB (self : acquisition) (mean var : list float) : option (list float) :=
  mean ← np_reshape1 mean (length mean);
  r ← np_binop add mean (map (fun s => kappa self * s) (map sqrt var));
  np_reshape1 r (length mean).

(** ** Progress reports

    [print_info] and [print_log] print and return nothing: a call is modelled
    by the events it causes, in their order, and by whether it returned.  A
    printed line is the values it formats.  The clock enters as the
    [microseconds] attribute of the elapsed [timedelta], which Python keeps
    from 0 to 999999.  [lvl] and [i] are Python integers, so [Z]; [%] and
    [divmod] by a positive number are [Z.modulo] and [Z.div]. *)

(** [numpy.argmax] on a one-dimensional array, as numpy computes it: the
    running maximum is replaced by the first later entry that is not below or
    equal to it, and the scan stops at a NaN.  An empty array raises
    [ValueError]. *)
Fixpoint argmax_from (mp : float) (i0 i : nat) (l : list float) : nat :=
  match l with
  | [] => i0
  | x :: l' =>
      if is_nan mp then i0
      else if x <=? mp then argmax_from mp i0 (S i) l'
      else argmax_from x i (S i) l'
  end.

Definition np_argmax (l : list float) : option nat :=
  match l with
  | [] => None
  | x :: l' => Some (argmax_from x 0 1 l')
  end.

(** What a [print] call shows: the values it formats, in their order.  The
    seconds shown are [microseconds/1000000]. *)
Inductive line :=
  | LastSampled (iteration : Z) (value : float) (position : point)
  | CurrentMaximum (ymax : float) (position : point)
  | TimeTaken (minutes microseconds : Z)
  | EmptyLine
  | Progress (iteration : Z) (ymax : float) (minutes microseconds : Z).

(** What a call does to the outside: it sets numpy's print options or
    prints a line. *)
Inductive event :=
  | SetPrintOptions (precision : Z) (suppress : bool)
  | Print (l : line).

(** The events of a call, and whether it returned ([false]: it raised after
    the events). *)
Record outcome := { trace : list event; returned : bool }.

(** [divmod(elapsed.microseconds, 60000000)] *)
Definition split_time (microseconds : Z) : Z * Z :=
  (microseconds / 60000000, microseconds mod 60000000)%Z.

(** [class print_info]: the verbosity level. *)
Record print_info_obj := { lvl : Z }.

(** [print_info.print_info].  [elapsed] is the [microseconds] attribute of
    [datetime.now() - op_start]; [x_max] is not used.  [a[-1]] is the last
    entry and raises [IndexError] on an empty array. *)
Definition print_info (self : print_info_obj) (elapsed : Z) (i : Z) (x_max : point)
    (ymax : float) (xtrain : list point) (ytrain : list float) : outcome :=
  if (lvl self =? 2)%Z then
    let opts := SetPrintOptions 4 true in
    match last ytrain, last xtrain with
    | Some y_last, Some x_last =>
        let line1 := Print (LastSampled (i + 1) y_last x_last) in
        match k ← np_argmax ytrain; xtrain !! k with
        | Some x_best =>
            let '(minutes, microseconds) := split_time elapsed in
            {| trace := [opts; line1; Print (CurrentMaximum ymax x_best);
                         Print (TimeTaken minutes microseconds); Print EmptyLine];
               returned := true |}
        | None => {| trace := [opts; line1]; returned := false |}
        end
    | _, _ => {| trace := [opts]; returned := false |}
    end
  else if (lvl self =? 1)%Z then
    if ((i + 1) mod 10 =? 0)%Z then
      let '(minutes, microseconds) := split_time elapsed in
      {| trace := [Print (Progress (i + 1) ymax minutes microseconds)];
         returned := true |}
    else {| trace := []; returned := true |}
  else {| trace := []; returned := true |}.

Section PrintLog.

(** [10 ** y] on a number, [numpy.power(10, y)] entry by entry on an array *)
Variable pow10 : float -> float.

(** [return_log], the function local to [print_log]; [xmins] and
    [min_max_ratio] are arrays (a number behaves as an array of length one). *)
Definition return_log (xmins min_max_ratio x : point) : option point :=
  e ← np_binop mul x min_max_ratio;
  np_binop mul xmins (map pow10 e).

(** [print_info.print_log] *)
Definition print_log (self : print_info_obj) (elapsed : Z) (i : Z) (x_max : point)
    (xmins min_max_ratio : point) (ymax : float)
    (xtrain : list point) (ytrain : list float) : outcome :=
  if (lvl self =? 2)%Z then
    let opts := SetPrintOptions 4 true in
    match last ytrain, x ← last xtrain; return_log xmins min_max_ratio x with
    | Some y_last, Some p_last =>
        let line1 := Print (LastSampled (i + 1) y_last p_last) in
        match k ← np_argmax ytrain; x ← xtrain !! k;
              return_log xmins min_max_ratio x with
        | Some p_best =>
            let '(minutes, microseconds) := split_time elapsed in
            {| trace := [opts; line1; Print (CurrentMaximum ymax p_best);
                         Print (TimeTaken minutes microseconds); Print EmptyLine];
               returned := true |}
        | None => {| trace := [opts; line1]; returned := false |}
        end
    | _, _ => {| trace := [opts]; returned := false |}
    end
  else if (lvl self =? 1)%Z then
    if ((i + 1) mod 10 =? 0)%Z then
      let '(minutes, microseconds) := split_time elapsed in
      {| trace := [Print (Progress (i + 1) ymax minutes microseconds)];
         returned := true |}
    else {| trace := []; returned := true |}
  else {| trace := []; returned := true |}.

End PrintLog.

(** The minutes and microseconds a printed line reports, if it reports a time. *)
Definition line_time (l : line) : option (Z * Z) :=
  match l with
  | TimeTaken minutes microseconds | Progress _ _ minutes microseconds =>
      Some (minutes, microseconds)
  | _ => None
  end.

(** The times that the printed lines of a call report. *)
Definition reported_times (r : outcome) : list (Z * Z) :=
  omap (fun e => match e with Print l => line_time l | _ => None end) (trace r).

(** Two arrays whose entries have the same squares, entry by entry. *)
Definition same_squares (d d' : point) : Prop :=
  Forall2 (fun u v => u * u = v * v) d d'.

(** * Facts about binary64 arithmetic

    The primitive operations are specified by the Standard Library's
    [spec_float] functions ([FloatAxioms]); the lemmas below are proved on
    that specification. *)

Module IEEE.

Section Rounding.
Local Open Scope Z_scope.

Lemma digits2_pos_bounds (p : positive) :
  2 ^ (Z.pos (digits2_pos p) - 1) <= Z.pos p < 2 ^ Z.pos (digits2_pos p).
Proof.
  induction p as [p IH|p IH|]; cbn [digits2_pos].
  - rewrite Pos2Z.inj_succ.
    replace (Z.succ (Z.pos (digits2_pos p)) - 1)
      with (Z.succ (Z.pos (digits2_pos p) - 1)) by lia.
    rewrite !Z.pow_succ_r by lia. lia.
  - rewrite Pos2Z.inj_succ.
    replace (Z.succ (Z.pos (digits2_pos p)) - 1)
      with (Z.succ (Z.pos (digits2_pos p) - 1)) by lia.
    rewrite !Z.pow_succ_r by lia. lia.
  - cbn. lia.
Qed.

Lemma digits2_pos_mono (p q : positive) :
  Z.pos p <= Z.pos q -> Z.pos (digits2_pos p) <= Z.pos (digits2_pos q).
Proof.
  intros Hpq.
  destruct (digits2_pos_bounds p) as [Hp _].
  destruct (digits2_pos_bounds q) as [_ Hq].
  destruct (Z.le_gt_cases (Z.pos (digits2_pos p)) (Z.pos (digits2_pos q)))
    as [|Hgt]; [assumption|].
  exfalso.
  assert (2 ^ Z.pos (digits2_pos q) <= 2 ^ (Z.pos (digits2_pos p) - 1))
    by (apply Z.pow_le_mono_r; lia).
  lia.
Qed.

(** One right shift halves a nonnegative mantissa. *)
Lemma shr_m_shr_1 (mrs : shr_record) :
  0 <= shr_m mrs -> shr_m (shr_1 mrs) = shr_m mrs / 2.
Proof.
  destruct mrs as [m r s]; cbn [shr_m]; intros Hm.
  destruct m as [|[p|p|]|p]; cbn [shr_1 shr_m]; try lia;
    rewrite <- Z.div2_div; reflexivity.
Qed.

Lemma shr_m_iter_pos (n : positive) : forall mrs,
  0 <= shr_m mrs ->
  shr_m (SpecFloat.iter_pos shr_1 n mrs) = shr_m mrs / 2 ^ Z.pos n.
Proof.
  induction n as [n IH|n IH|]; intros mrs Hm; cbn [SpecFloat.iter_pos].
  - assert (H1 : 0 <= shr_m (shr_1 mrs)).
    { rewrite shr_m_shr_1 by assumption. apply Z.div_pos; lia. }
    assert (H2 : 0 <= shr_m (SpecFloat.iter_pos shr_1 n (shr_1 mrs))).
    { rewrite IH by assumption. apply Z.div_pos; lia. }
    rewrite IH, IH, shr_m_shr_1 by assumption.
    rewrite !Z.div_div by lia.
    f_equal. replace (Z.pos n~1) with (1 + (Z.pos n + Z.pos n)) by lia.
    rewrite !Z.pow_add_r, Z.pow_1_r by lia. ring.
  - assert (H2 : 0 <= shr_m (SpecFloat.iter_pos shr_1 n mrs)).
    { rewrite IH by assumption. apply Z.div_pos; lia. }
    rewrite IH, IH by assumption.
    rewrite Z.div_div by lia.
    f_equal. replace (Z.pos n~0) with (Z.pos n + Z.pos n) by lia.
    rewrite Z.pow_add_r by lia. ring.
  - rewrite shr_m_shr_1 by assumption. reflexivity.
Qed.

Lemma shr_m_record_of_loc m l : shr_m (shr_record_of_loc m l) = m.
Proof. destruct l as [|[]]; reflexivity. Qed.

(** Shifting a positive mantissa to its canonical exponent keeps it
    positive, provided the number is at least [2 ^ emin]. *)
Lemma shr_fexp_pos (m e : Z) (l : location) :
  0 < m -> emin < Zdigits2 m + e ->
  0 < shr_m (fst (shr_fexp prec emax m e l)) /\
  ((snd (shr_fexp prec emax m e l) = e /\
    shr_m (fst (shr_fexp prec emax m e l)) = m)
   \/ emin <= snd (shr_fexp prec emax m e l)).
Proof.
  intros Hm He.
  destruct m as [|p|p]; try lia.
  unfold shr_fexp, shr. cbn [Zdigits2] in *.
  set (d := Z.pos (digits2_pos p)) in *.
  destruct (fexp prec emax (d + e) - e) as [|n|n] eqn:En; cbn [fst snd];
    rewrite ?shr_m_record_of_loc; try (split; [lia | left; split; reflexivity]).
  rewrite shr_m_iter_pos by (rewrite shr_m_record_of_loc; lia).
  rewrite shr_m_record_of_loc.
  assert (Hn : Z.pos n <= d - 1).
  { revert En. unfold fexp, SpecFloat.emin, prec, emax in *. lia. }
  destruct (digits2_pos_bounds p) as [Hlo _]. fold d in Hlo.
  assert (Hpow : 2 ^ Z.pos n <= 2 ^ (d - 1)) by (apply Z.pow_le_mono_r; lia).
  split.
  - apply Z.div_str_pos. lia.
  - right. rewrite <- En. unfold fexp, SpecFloat.emin, prec, emax in *. lia.
Qed.

Lemma round_nearest_even_ge m l : m <= round_nearest_even m l.
Proof. destruct l as [|[]]; cbn; try lia. destruct (Z.even m); lia. Qed.

(** Rounding a positive mantissa never produces a zero or a NaN, and keeps
    the sign. *)
Lemma binary_round_aux_pos (s : bool) (m e : Z) (l : location) :
  0 < m -> emin < Zdigits2 m + e ->
  binary_round_aux prec emax s m e l = S754_infinity s \/
  exists m' e', binary_round_aux prec emax s m e l = S754_finite s m' e'.
Proof.
  intros Hm He. unfold binary_round_aux.
  destruct (shr_fexp_pos m e l Hm He) as [H1 H1'].
  destruct (shr_fexp prec emax m e l) as [mrs1 e1]; cbn [fst snd] in *.
  set (m2 := round_nearest_even (shr_m mrs1) (loc_of_shr_record mrs1)).
  assert (Hm2 : shr_m mrs1 <= m2) by apply round_nearest_even_ge.
  assert (He2 : emin < Zdigits2 m2 + e1).
  { destruct m2 as [|q|q] eqn:Eq; try lia. cbn [Zdigits2].
    destruct H1' as [[-> Hsame]|Hge].
    - rewrite Hsame in Hm2. destruct m as [|p|p]; try lia. cbn [Zdigits2] in He.
      pose proof (digits2_pos_mono p q Hm2). lia.
    - lia. }
  destruct (shr_fexp_pos m2 e1 loc_Exact ltac:(lia) He2) as [H2 _].
  destruct (shr_fexp prec emax m2 e1 loc_Exact) as [mrs2 e2]; cbn [fst snd] in *.
  destruct (shr_m mrs2) as [|q|q]; try lia.
  destruct (e2 <=? emax - prec); eauto.
Qed.

(** The result of rounding carries the sign it was given. *)
Lemma binary_round_aux_cases (s : bool) (m e : Z) (l : location) :
  binary_round_aux prec emax s m e l = S754_nan \/
  binary_round_aux prec emax s m e l = S754_zero s \/
  binary_round_aux prec emax s m e l = S754_infinity s \/
  exists m' e', binary_round_aux prec emax s m e l = S754_finite s m' e'.
Proof.
  unfold binary_round_aux.
  destruct (shr_fexp prec emax m e l) as [mrs1 e1].
  destruct (shr_fexp prec emax _ e1 loc_Exact) as [mrs2 e2].
  destruct (shr_m mrs2); [ | destruct (e2 <=? emax - prec) | ]; eauto 6.
Qed.
End Rounding.

(** ** Views of a float through its specification *)

Lemma is_zero_view (x : float) :
  (x =? 0) = true -> x = 0 \/ x = -0.
Proof.
  rewrite FloatAxioms.eqb_spec. intros H. rewrite <- (SF2Prim_Prim2SF x).
  change (Prim2SF 0) with (S754_zero false) in H.
  destruct (Prim2SF x) as [s|s| |s m e]; try discriminate.
  - destruct s; [right|left]; reflexivity.
  - destruct s; discriminate.
  - destruct s; discriminate.
Qed.

Lemma is_finite_view (x : float) :
  is_finite x = true ->
  (exists s, Prim2SF x = S754_zero s) \/ (exists s m e, Prim2SF x = S754_finite s m e).
Proof.
  unfold is_finite, is_nan, is_infinity. rewrite !FloatAxioms.eqb_spec, abs_spec.
  change (Prim2SF infinity) with (S754_infinity false).
  destruct (Prim2SF x) as [s|s| |s m e]; cbn; eauto 6; try discriminate.
  rewrite orb_true_r. discriminate.
Qed.

Lemma SFcompare_refl_finite s m e :
  SFcompare (S754_finite s m e) (S754_finite s m e) = Some Eq.
Proof.
  cbn. destruct s; rewrite Z.compare_refl, Pos.compare_cont_refl; reflexivity.
Qed.

Lemma is_nan_view (x : float) : is_nan x = false -> Prim2SF x <> S754_nan.
Proof.
  unfold is_nan. rewrite FloatAxioms.eqb_spec. intros H E. rewrite E in H. discriminate.
Qed.

Lemma is_nan_false (x : float) : Prim2SF x <> S754_nan -> is_nan x = false.
Proof.
  unfold is_nan. rewrite FloatAxioms.eqb_spec. intros H.
  destruct (Prim2SF x) as [s|s| |s m e]; try congruence.
  - reflexivity.
  - destruct s; reflexivity.
  - unfold SFeqb. rewrite SFcompare_refl_finite. reflexivity.
Qed.

Lemma valid_exponent s m e :
  valid_binary (S754_finite s m e) = true ->
  (emin <= e <= emax - prec)%Z /\
  fexp prec emax (Z.pos (digits2_pos m) + e) = e.
Proof.
  cbn. unfold bounded, canonical_mantissa. rewrite andb_true_iff, Z.eqb_eq, Z.leb_le.
  intros [H1 H2]. split; [|assumption].
  unfold fexp, SpecFloat.emin, prec, emax in *. lia.
Qed.

(** [x - x] is [+0] for every finite [x]. *)
Lemma sub_diag (x : float) : is_finite x = true -> x - x = 0.
Proof.
  intros H. apply Prim2SF_inj. rewrite sub_spec.
  change (Prim2SF 0) with (S754_zero false).
  destruct (is_finite_view x H) as [[s ->]|(s & m & e & ->)].
  - destruct s; reflexivity.
  - unfold SF64sub, SFsub. rewrite Z.sub_diag. reflexivity.
Qed.

Section MulOne.
Local Open Scope Z_scope.

Lemma digits2_pos_iter_xO (n m : positive) :
  digits2_pos (Pos.iter xO m n) = (digits2_pos m + n)%positive.
Proof.
  revert m. induction n as [n IH|n IH|]; intros m; cbn [Pos.iter digits2_pos].
  - rewrite !IH. lia.
  - rewrite !IH. lia.
  - lia.
Qed.

Lemma shr_iter_xO (n : positive) : forall m,
  SpecFloat.iter_pos shr_1 n
    {| shr_m := Z.pos (Pos.iter xO m n); shr_r := false; shr_s := false |}
  = {| shr_m := Z.pos m; shr_r := false; shr_s := false |}.
Proof.
  induction n as [n IH|n IH|]; intros m; cbn [SpecFloat.iter_pos Pos.iter].
  - cbn [shr_1 orb]. rewrite !IH. reflexivity.
  - rewrite !IH. reflexivity.
  - reflexivity.
Qed.

(** Rounding [m * 2 ^ n] at exponent [e - n] gives back a canonical
    [(m, e)] unchanged. *)
Lemma binary_round_aux_shifted (s : bool) (m n : positive) (e : Z) :
  bounded prec emax m e = true ->
  binary_round_aux prec emax s (Z.pos (Pos.iter xO m n)) (e - Z.pos n) loc_Exact
  = S754_finite s m e.
Proof.
  intros Hb.
  destruct (valid_exponent s m e Hb) as [[Hlo Hhi] Hc].
  unfold binary_round_aux, shr_fexp. cbn [Zdigits2 shr_record_of_loc].
  rewrite digits2_pos_iter_xO, Pos2Z.inj_add.
  replace (Z.pos (digits2_pos m) + Z.pos n + (e - Z.pos n))
    with (Z.pos (digits2_pos m) + e) by lia.
  rewrite Hc. replace (e - (e - Z.pos n)) with (Z.pos n) by lia.
  cbn [shr]. rewrite shr_iter_xO.
  cbn [shr_m loc_of_shr_record round_nearest_even Zdigits2 shr_record_of_loc].
  replace (e - Z.pos n + Z.pos n) with e by lia.
  rewrite Hc, Z.sub_diag. cbn [shr shr_m].
  replace (e <=? emax - prec) with true by (symmetry; apply Z.leb_le; lia).
  reflexivity.
Qed.
End MulOne.

(** One is a neutral element of the binary64 product. *)
Lemma mul_1_r (x : float) : x * 1 = x.
Proof.
  apply Prim2SF_inj. rewrite mul_spec.
  change (Prim2SF 1) with (S754_finite false 4503599627370496 (-52)).
  pose proof (Prim2SF_valid x) as Hv.
  destruct (Prim2SF x) as [s|s| |s m e]; cbn [SF64mul SFmul]; unfold SF64mul, SFmul;
    rewrite ?xorb_false_r; try reflexivity.
  rewrite Pos.mul_comm.
  change (4503599627370496 * m)%positive with (Pos.iter xO m 52).
  change (e + -52)%Z with (e - Z.pos 52)%Z.
  apply binary_round_aux_shifted. exact Hv.
Qed.

Lemma mul_1_l (x : float) : 1 * x = x.
Proof.
  apply Prim2SF_inj. rewrite mul_spec.
  change (Prim2SF 1) with (S754_finite false 4503599627370496 (-52)).
  pose proof (Prim2SF_valid x) as Hv.
  destruct (Prim2SF x) as [s|s| |s m e]; unfold SF64mul, SFmul;
    rewrite ?xorb_false_l; try reflexivity.
  change (4503599627370496 * m)%positive with (Pos.iter xO m 52).
  replace (-52 + e)%Z with (e - Z.pos 52)%Z by lia.
  apply binary_round_aux_shifted. exact Hv.
Qed.

(** ** Square roots *)

Lemma SFsqrt_core_pos (m : positive) (e : Z) :
  (emin <= e)%Z ->
  (0 < fst (fst (SFsqrt_core_binary prec emax (Z.pos m) e)))%Z /\
  (emin <= snd (fst (SFsqrt_core_binary prec emax (Z.pos m) e)))%Z.
Proof.
  intros He. unfold SFsqrt_core_binary.
  set (e' := Z.min _ _).
  assert (He' : (emin <= e' /\ 2 * e' <= e)%Z).
  { subst e'. rewrite (Z.div2_div e).
    generalize (Z.div2 (Zdigits2 (Z.pos m) + e + 1)). intros z.
    pose proof (Z.div_mod e 2 ltac:(lia)) as Hdm.
    pose proof (Z.mod_pos_bound e 2 ltac:(lia)) as Hmb.
    unfold fexp, SpecFloat.emin, prec, emax in *.
    generalize dependent (e / 2)%Z. generalize dependent (e mod 2)%Z. lia. }
  set (m' := match (e - 2 * e')%Z with
             | Z.pos _ => Z.shiftl (Z.pos m) (e - 2 * e') | 0%Z => Z.pos m | _ => 0%Z end).
  assert (Hm' : (0 < m')%Z).
  { subst m'. destruct (e - 2 * e')%Z as [|p|p] eqn:Es; try lia.
    rewrite Z.shiftl_mul_pow2 by lia.
    apply Z.mul_pos_pos; [lia | apply Z.pow_pos_nonneg; lia]. }
  pose proof (Z.sqrtrem_spec m' ltac:(lia)) as Hs.
  destruct (Z.sqrtrem m') as [q r]. cbn [fst snd].
  split; [nia | lia].
Qed.

(** The square root of a positive number is positive. *)
Lemma sqrt_pos (v : float) : (0 <? v) = true -> (0 <? sqrt v) = true.
Proof.
  rewrite !ltb_spec, sqrt_spec.
  change (Prim2SF 0) with (S754_zero false).
  pose proof (Prim2SF_valid v) as Hv.
  destruct (Prim2SF v) as [s|s| |s m e]; try discriminate.
  - destruct s; [discriminate | reflexivity].
  - destruct s; [discriminate | intros _].
    destruct (valid_exponent _ _ _ Hv) as [[He _] _].
    unfold SF64sqrt, SFsqrt.
    destruct (SFsqrt_core_pos m e He) as [Hq He'].
    destruct (SFsqrt_core_binary prec emax (Z.pos m) e) as [[q e'] lz].
    cbn [fst snd] in *.
    assert (Hd : (emin < Zdigits2 q + e')%Z).
    { destruct q as [|q|q]; try lia. cbn [Zdigits2]. lia. }
    destruct (binary_round_aux_pos false q e' lz Hq Hd) as [->|(m' & e'' & ->)];
      reflexivity.
Qed.

(** ** Signs *)

(** The sign bit is clear, or the value is NaN. *)
Definition sf_sign_clear (x : spec_float) : Prop :=
  match x with
  | S754_nan => True
  | S754_zero s | S754_infinity s | S754_finite s _ _ => s = false
  end.

Definition sign_clear (x : float) : Prop := sf_sign_clear (Prim2SF x).

Lemma sf_sign_clear_round m e l :
  sf_sign_clear (binary_round_aux prec emax false m e l).
Proof.
  destruct (binary_round_aux_cases false m e l)
    as [->|[->|[->|(m' & e' & ->)]]]; exact I || reflexivity.
Qed.

Lemma sign_clear_mul (x y : float) :
  sign_clear x -> sign_clear y -> sign_clear (x * y).
Proof.
  unfold sign_clear. rewrite mul_spec.
  destruct (Prim2SF x) as [sx|sx| |sx mx ex], (Prim2SF y) as [sy|sy| |sy my ey];
    cbn; intros; subst; try exact I; try reflexivity.
  apply sf_sign_clear_round.
Qed.

Lemma sign_clear_square (x : float) : sign_clear (x * x).
Proof.
  unfold sign_clear. rewrite mul_spec.
  destruct (Prim2SF x) as [sx|sx| |sx mx ex]; cbn; try exact I;
    try (destruct sx; reflexivity).
  rewrite xorb_nilpotent. apply sf_sign_clear_round.
Qed.

Lemma sign_clear_div (x y : float) :
  sign_clear x -> sign_clear y -> sign_clear (x / y).
Proof.
  unfold sign_clear. rewrite div_spec.
  destruct (Prim2SF x) as [sx|sx| |sx mx ex], (Prim2SF y) as [sy|sy| |sy my ey];
    cbn; intros; subst; try exact I; try reflexivity.
  unfold SF64div, SFdiv.
  destruct (SFdiv_core_binary prec emax (Z.pos mx) ex (Z.pos my) ey) as [[mz ez] lz].
  apply sf_sign_clear_round.
Qed.

Lemma sign_clear_add (x y : float) :
  sign_clear x -> sign_clear y -> sign_clear (x + y).
Proof.
  unfold sign_clear. rewrite add_spec.
  destruct (Prim2SF x) as [sx|sx| |sx mx ex], (Prim2SF y) as [sy|sy| |sy my ey];
    cbn; intros; subst; try exact I; try reflexivity.
  unfold SF64add, SFadd, cond_Zopp, binary_normalize.
  rewrite <- Pos2Z.inj_add. unfold binary_round.
  destruct (shl_align _ _ (fexp _ _ _)) as [mz ez]. apply sf_sign_clear_round.
Qed.

Lemma sign_clear_sqrt (x : float) : sign_clear x -> sign_clear (sqrt x).
Proof.
  unfold sign_clear. rewrite sqrt_spec.
  destruct (Prim2SF x) as [sx|sx| |sx mx ex]; cbn; intros; subst;
    try exact I; try reflexivity.
  unfold SF64sqrt, SFsqrt.
  destruct (SFsqrt_core_binary prec emax (Z.pos mx) ex) as [[mz ez] lz].
  apply sf_sign_clear_round.
Qed.

(** The opposite of a value whose sign bit is clear is not above zero. *)
Lemma opp_not_pos (x : float) : sign_clear x -> (0 <? - x) = false.
Proof.
  unfold sign_clear. rewrite ltb_spec, opp_spec.
  change (Prim2SF 0) with (S754_zero false).
  destruct (Prim2SF x) as [sx|sx| |sx mx ex]; cbn; intros; subst; reflexivity.
Qed.

(** Dividing a value that is not above zero by one whose sign bit is clear
    gives a value that is not above zero. *)
Lemma div_not_pos (x y : float) :
  (0 <? x) = false -> sign_clear y -> (0 <? x / y) = false.
Proof.
  unfold sign_clear. rewrite !ltb_spec, div_spec.
  change (Prim2SF 0) with (S754_zero false).
  destruct (Prim2SF x) as [sx|sx| |sx mx ex], (Prim2SF y) as [sy|sy| |sy my ey];
    cbn; intros Hx Hy; subst; try reflexivity;
    try (destruct sx; (discriminate || reflexivity)).
  destruct sx; try discriminate.
  unfold SF64div, SFdiv.
  destruct (SFdiv_core_binary prec emax (Z.pos mx) ex (Z.pos my) ey) as [[mz ez] lz].
  destruct (binary_round_aux_cases (xorb true false) mz ez lz)
    as [H|[H|[H|(m' & e' & H)]]]; rewrite H; reflexivity.
Qed.

(** A value whose sign bit is clear is not below zero. *)
Lemma sign_clear_not_neg (x : float) : sign_clear x -> (x <? 0) = false.
Proof.
  unfold sign_clear. rewrite ltb_spec. change (Prim2SF 0) with (S754_zero false).
  destruct (Prim2SF x) as [sx|sx| |sx mx ex]; cbn; intros; subst; reflexivity.
Qed.

(** The product of two values that are not below zero is not below zero. *)
Lemma mul_not_neg (x y : float) :
  (x <? 0) = false -> (y <? 0) = false -> (x * y <? 0) = false.
Proof.
  rewrite !ltb_spec, mul_spec. change (Prim2SF 0) with (S754_zero false).
  destruct (Prim2SF x) as [sx|sx| |sx mx ex], (Prim2SF y) as [sy|sy| |sy my ey];
    cbn; try reflexivity; try (destruct sx; (discriminate || reflexivity));
    try (destruct sy; (discriminate || reflexivity));
    try (destruct sx, sy; (discriminate || reflexivity)).
  destruct sx, sy; try discriminate. intros _ _.
  destruct (binary_round_aux_cases false (Z.pos (mx * my)) (ex + ey) loc_Exact)
    as [H|[H|[H|(m' & e' & H)]]]; cbn [xorb]; unfold SFltb; rewrite H; reflexivity.
Qed.

(** A number that is not below zero and not NaN is at least zero. *)
Lemma not_neg_le (x : float) :
  (x <? 0) = false -> is_nan x = false -> (0 <=? x) = true.
Proof.
  rewrite ltb_spec, leb_spec. change (Prim2SF 0) with (S754_zero false).
  intros H Hn. apply is_nan_view in Hn. revert H.
  destruct (Prim2SF x) as [sx|sx| |sx mx ex]; try congruence;
    destruct sx; cbn; congruence.
Qed.

(** ** Division *)

Lemma SFopp_round s m e l :
  SFopp (binary_round_aux prec emax s m e l) = binary_round_aux prec emax (negb s) m e l.
Proof.
  unfold binary_round_aux.
  destruct (shr_fexp prec emax m e l) as [mrs1 e1].
  destruct (shr_fexp prec emax _ e1 loc_Exact) as [mrs2 e2].
  destruct (shr_m mrs2); [ | destruct (e2 <=? emax - prec)%Z | ]; reflexivity.
Qed.

(** The sign of a quotient follows the sign of the numerator. *)
Lemma opp_div (a b : float) : - a / b = - (a / b).
Proof.
  apply Prim2SF_inj. rewrite opp_spec, !div_spec, opp_spec.
  destruct (Prim2SF a) as [sa|sa| |sa ma ea], (Prim2SF b) as [sb|sb| |sb mb eb];
    cbn [SFopp]; unfold SF64div, SFdiv; cbn [SFopp];
    rewrite ?negb_xorb_l; try reflexivity.
  destruct (SFdiv_core_binary prec emax (Z.pos ma) ea (Z.pos mb) eb) as [[mz ez] lz].
  rewrite SFopp_round, negb_xorb_l. reflexivity.
Qed.

(** A zero divided by a nonzero number is a zero. *)
Lemma zero_div (z d : float) :
  (z =? 0) = true -> (d =? 0) = false -> is_nan d = false -> (z / d =? 0) = true.
Proof.
  intros Hz Hd Hn. apply is_nan_view in Hn. revert Hd.
  destruct (is_zero_view z Hz) as [-> | ->];
    rewrite !FloatAxioms.eqb_spec, div_spec;
    [change (Prim2SF 0) with (S754_zero false)
    |change (Prim2SF 0) with (S754_zero false);
     change (Prim2SF (-0)) with (S754_zero true)];
    destruct (Prim2SF d) as [sd|sd| |sd md ed]; try congruence; try reflexivity;
    discriminate.
Qed.

(** A nonzero number divided by a zero is an infinity. *)
Lemma div_zero_inf (d z : float) :
  (z =? 0) = true -> (d =? 0) = false -> is_nan d = false ->
  d / z = infinity \/ d / z = neg_infinity.
Proof.
  intros Hz Hd Hn. apply is_nan_view in Hn. revert Hd.
  rewrite FloatAxioms.eqb_spec. change (Prim2SF 0) with (S754_zero false).
  intros Hd.
  assert (H : Prim2SF (d / z) = S754_infinity false \/
              Prim2SF (d / z) = S754_infinity true).
  { rewrite div_spec.
    destruct (is_zero_view z Hz) as [-> | ->];
      [change (Prim2SF 0) with (S754_zero false)
      |change (Prim2SF (-0)) with (S754_zero true)];
      destruct (Prim2SF d) as [sd|sd| |sd md ed]; try congruence; try discriminate;
      destruct sd; cbn; auto. }
  destruct H as [H|H]; [left|right]; apply Prim2SF_inj; rewrite H; reflexivity.
Qed.

(** A zero divided by a zero is NaN. *)
Lemma div_zero_zero (d z : float) :
  (z =? 0) = true -> (d =? 0) = true -> d / z = nan.
Proof.
  intros Hz Hd.
  destruct (is_zero_view z Hz) as [-> | ->], (is_zero_view d Hd) as [-> | ->];
    reflexivity.
Qed.

(** Whatever is divided by a zero, the quotient is not a finite number. *)
Lemma div_zero_not_finite (d z : float) : (z =? 0) = true -> is_finite (d / z) = false.
Proof.
  intros Hz. unfold is_finite, is_nan, is_infinity.
  rewrite !FloatAxioms.eqb_spec, abs_spec, div_spec.
  change (Prim2SF infinity) with (S754_infinity false).
  destruct (is_zero_view z Hz) as [-> | ->];
    [change (Prim2SF 0) with (S754_zero false)
    |change (Prim2SF (-0)) with (S754_zero true)];
    destruct (Prim2SF d) as [sd|sd| |sd md ed]; try reflexivity;
    destruct sd; reflexivity.
Qed.

(** Doubling a nonzero number does not make it zero. *)
Lemma two_mul_nonzero (y : float) :
  (y =? 0) = false -> is_nan y = false ->
  (2 * y =? 0) = false /\ is_nan (2 * y) = false.
Proof.
  intros Hy Hn. apply is_nan_view in Hn.
  assert (H : Prim2SF (2 * y) <> S754_nan /\
              forall s, Prim2SF (2 * y) <> S754_zero s).
  { rewrite mul_spec. revert Hy. rewrite FloatAxioms.eqb_spec.
    change (Prim2SF 0) with (S754_zero false).
    change (Prim2SF 2) with (S754_finite false 4503599627370496 (-51)).
    pose proof (Prim2SF_valid y) as Hv.
    destruct (Prim2SF y) as [s|s| |s m e]; try congruence; try discriminate.
    - intros _. split; [discriminate | intros s'; discriminate].
    - intros _. unfold SF64mul, SFmul.
      destruct (valid_exponent _ _ _ Hv) as [[He _] _].
      assert (Hd : (emin < Zdigits2 (Z.pos (4503599627370496 * m)) + (-51 + e))%Z).
      { cbn [Zdigits2].
        assert (Hle : (Z.pos 4503599627370496 <= Z.pos (4503599627370496 * m))%Z) by lia.
        apply digits2_pos_mono in Hle.
        change (Z.pos (digits2_pos 4503599627370496)) with 53%Z in Hle.
        unfold SpecFloat.emin, prec, emax in *. lia. }
      destruct (binary_round_aux_pos (xorb false s) _ _ loc_Exact
                  (Pos2Z.is_pos _) Hd) as [->|(m' & e' & ->)];
        (split; [discriminate | intros s'; discriminate]). }
  destruct H as [H1 H2]. split.
  - rewrite FloatAxioms.eqb_spec. change (Prim2SF 0) with (S754_zero false).
    destruct (Prim2SF (2 * y)) as [s|s| |s m e]; try reflexivity.
    + exfalso. exact (H2 s eq_refl).
    + destruct s; reflexivity.
    + destruct s; reflexivity.
  - apply is_nan_false. exact H1.
Qed.

(** NaN absorbs sums and products. *)
Lemma nan_mul_l (x : float) : nan * x = nan.
Proof. apply Prim2SF_inj. rewrite mul_spec. reflexivity. Qed.


(** ** Commutation and symmetry *)

Lemma mul_comm (x y : float) : x * y = y * x.
Proof.
  apply Prim2SF_inj. rewrite !mul_spec.
  destruct (Prim2SF x) as [sx|sx| |sx mx ex], (Prim2SF y) as [sy|sy| |sy my ey];
    unfold SF64mul, SFmul; rewrite ?(xorb_comm sy sx); try reflexivity.
  rewrite (Pos.mul_comm my mx), (Z.add_comm ey ex). reflexivity.
Qed.

Lemma mul_opp_opp (z : float) : (- z) * (- z) = z * z.
Proof.
  apply Prim2SF_inj. rewrite !mul_spec, opp_spec.
  destruct (Prim2SF z) as [s|s| |s m e]; cbn [SFopp]; unfold SF64mul, SFmul;
    rewrite ?xorb_nilpotent; reflexivity.
Qed.

Lemma SFopp_binary_normalize (m e : Z) :
  m <> 0%Z ->
  binary_normalize prec emax (- m) e false
  = SFopp (binary_normalize prec emax m e false).
Proof.
  intros Hm. destruct m as [|p|p]; [congruence| |].
  - change (- Z.pos p)%Z with (Z.neg p). unfold binary_normalize, binary_round.
    destruct (shl_align _ _ _) as [mz ez]. rewrite SFopp_round. reflexivity.
  - change (- Z.neg p)%Z with (Z.pos p). unfold binary_normalize, binary_round.
    destruct (shl_align _ _ _) as [mz ez]. rewrite SFopp_round. reflexivity.
Qed.

(** Swapping the operands of a difference changes its sign at most. *)
Lemma sub_swap (a b : float) : b - a = - (a - b) \/ b - a = a - b.
Proof.
  assert (H : Prim2SF (b - a) = SFopp (Prim2SF (a - b))
              \/ Prim2SF (b - a) = Prim2SF (a - b)).
  { rewrite !sub_spec.
    destruct (Prim2SF a) as [sa|sa| |sa ma ea], (Prim2SF b) as [sb|sb| |sb mb eb];
      unfold SF64sub, SFsub; cbn [SFopp];
      try (destruct sa, sb; cbn; auto; fail);
      try (destruct sa; cbn; auto; fail);
      try (destruct sb; cbn; auto; fail);
      try (left; rewrite ?negb_involutive; reflexivity).
    rewrite (Z.min_comm eb ea).
    set (X := cond_Zopp sa (Z.pos (shl_align ma ea (Z.min ea eb)).1)).
    set (Y := cond_Zopp sb (Z.pos (shl_align mb eb (Z.min ea eb)).1)).
    destruct (Z.eq_dec (X - Y)%Z 0%Z) as [E|E].
    - right. replace (Y - X)%Z with 0%Z by lia. rewrite E. reflexivity.
    - left. replace (Y - X)%Z with (- (X - Y))%Z by lia.
      apply SFopp_binary_normalize. exact E. }
  destruct H as [H|H]; [left|right]; apply Prim2SF_inj; rewrite ?opp_spec; exact H.
Qed.

(** The square of a difference does not depend on the order of the operands. *)
Lemma sub_swap_square (a b : float) : (a - b) * (a - b) = (b - a) * (b - a).
Proof.
  destruct (sub_swap a b) as [-> | ->]; [rewrite mul_opp_opp|]; reflexivity.
Qed.

(** ** NaN and invalid operands *)

Lemma nan_mul_r (x : float) : x * nan = nan.
Proof. rewrite mul_comm. apply nan_mul_l. Qed.

Lemma nan_add_r (x : float) : x + nan = nan.
Proof.
  apply Prim2SF_inj. rewrite add_spec. change (Prim2SF nan) with S754_nan.
  destruct (Prim2SF x) as [s|s| |s m e]; reflexivity.
Qed.

Lemma div_nan_r (x : float) : x / nan = nan.
Proof.
  apply Prim2SF_inj. rewrite div_spec. change (Prim2SF nan) with S754_nan.
  destruct (Prim2SF x) as [s|s| |s m e]; reflexivity.
Qed.

(** The square root of a number below zero is NaN. *)
Lemma sqrt_neg_nan (v : float) : (v <? 0) = true -> sqrt v = nan.
Proof.
  rewrite ltb_spec. change (Prim2SF 0) with (S754_zero false). intros H.
  apply Prim2SF_inj. rewrite sqrt_spec. revert H.
  destruct (Prim2SF v) as [s|s| |s m e]; try discriminate;
    destruct s; try discriminate; reflexivity.
Qed.

Lemma sqrt_nan_of_nan (v : float) : is_nan v = true -> sqrt v = nan.
Proof.
  unfold is_nan. rewrite FloatAxioms.eqb_spec. intros H.
  apply Prim2SF_inj. rewrite sqrt_spec. revert H.
  destruct (Prim2SF v) as [s|s| |s m e]; try reflexivity.
  - discriminate.
  - destruct s; discriminate.
  - unfold SFeqb. rewrite SFcompare_refl_finite. discriminate.
Qed.

(** ** Comparisons with zero *)

Lemma leb_zero_cases (v : float) :
  (0 <=? v) = true -> (v =? 0) = true \/ (0 <? v) = true.
Proof.
  rewrite leb_spec, FloatAxioms.eqb_spec, ltb_spec.
  change (Prim2SF 0) with (S754_zero false).
  destruct (Prim2SF v) as [s|s| |s m e]; try discriminate; cbn; auto;
    destruct s; cbn; auto.
Qed.

Lemma ltb_zero_facts (v : float) :
  (0 <? v) = true -> (v =? 0) = false /\ (v <? 0) = false /\ is_nan v = false.
Proof.
  intros H. assert (Hn : Prim2SF v <> S754_nan).
  { intros E. rewrite ltb_spec, E in H. discriminate. }
  revert H. rewrite !ltb_spec, FloatAxioms.eqb_spec.
  change (Prim2SF 0) with (S754_zero false).
  intros H. repeat split; [| |apply is_nan_false; exact Hn]; revert H;
    destruct (Prim2SF v) as [s|s| |s m e]; try discriminate;
    destruct s; try discriminate; reflexivity.
Qed.

Lemma eqb_zero_not_neg (v : float) : (v =? 0) = true -> (v <? 0) = false.
Proof. intros H. destruct (is_zero_view v H) as [-> | ->]; reflexivity. Qed.

Lemma eqb_refl (x : float) : is_nan x = false -> (x =? x) = true.
Proof. unfold is_nan. intros H. apply negb_false_iff in H. exact H. Qed.

(** Adding a zero to a number leaves a number equal to it. *)
Lemma add_zero_eqb (m z : float) :
  is_nan m = false -> (z =? 0) = true -> (m + z =? m) = true.
Proof.
  intros Hn Hz. pose proof (eqb_refl m Hn) as Hr. revert Hr.
  rewrite !FloatAxioms.eqb_spec, add_spec.
  destruct (is_zero_view z Hz) as [-> | ->];
    [change (Prim2SF 0) with (S754_zero false)
    |change (Prim2SF (-0)) with (S754_zero true)];
    destruct (Prim2SF m) as [s|s| |s mm e]; try discriminate; try (intros H; exact H);
    destruct s; reflexivity.
Qed.

(** A finite number times a zero is a zero. *)
Lemma mul_finite_zero (k z : float) :
  is_finite k = true -> (z =? 0) = true -> (k * z =? 0) = true.
Proof.
  intros Hk Hz. rewrite FloatAxioms.eqb_spec, mul_spec.
  change (Prim2SF 0) with (S754_zero false).
  destruct (is_zero_view z Hz) as [-> | ->];
    [change (Prim2SF 0) with (S754_zero false)
    |change (Prim2SF (-0)) with (S754_zero true)];
    destruct (is_finite_view k Hk) as [[s ->]|(s & m & e & ->)]; reflexivity.
Qed.

(** *** The order of binary64 numbers *)

(** A number's place in the order: infinities outside, the two zeros
    together, a finite number by sign, exponent and mantissa. *)
Definition sf_key (x : spec_float) : Z * Z * Z :=
  match x with
  | S754_nan => (0, 0, 0)%Z
  | S754_zero _ => (0, 0, 0)%Z
  | S754_infinity true => (-2, 0, 0)%Z
  | S754_infinity false => (2, 0, 0)%Z
  | S754_finite true m e => (-1, - e, Z.neg m)%Z
  | S754_finite false m e => (1, e, Z.pos m)%Z
  end.

Definition key_le (a b : Z * Z * Z) : Prop :=
  let '(a1, a2, a3) := a in
  let '(b1, b2, b3) := b in
  (a1 < b1 \/ (a1 = b1 /\ (a2 < b2 \/ (a2 = b2 /\ a3 <= b3))))%Z.

Lemma SFleb_key (x y : spec_float) :
  x <> S754_nan -> y <> S754_nan ->
  (SFleb x y = true <-> key_le (sf_key x) (sf_key y)).
Proof.
  intros Hx Hy. unfold SFleb.
  destruct x as [s1|s1| |s1 m1 e1]; try congruence;
    destruct y as [s2|s2| |s2 m2 e2]; try congruence;
    cbn [SFcompare sf_key key_le];
    try (destruct s1); try (destruct s2); cbn [key_le];
    try (split; [intros _; lia | reflexivity]);
    try (split; [discriminate | intros H; exfalso; lia]).
  - change (Pos.compare_cont Eq m1 m2) with (m1 ?= m2)%positive.
    destruct (Z.compare_spec e1 e2); [destruct (Pos.compare_spec m1 m2)| |];
      cbn [CompOpp];
      try (split; [intros _; lia | reflexivity]);
      try (split; [discriminate | intros H'; exfalso; lia]).
  - change (Pos.compare_cont Eq m1 m2) with (m1 ?= m2)%positive.
    destruct (Z.compare_spec e1 e2); [destruct (Pos.compare_spec m1 m2)| |];
      try (split; [intros _; lia | reflexivity]);
      try (split; [discriminate | intros H'; exfalso; lia]).
Qed.

Lemma leb_key (x y : float) :
  is_nan x = false -> is_nan y = false ->
  ((x <=? y) = true <-> key_le (sf_key (Prim2SF x)) (sf_key (Prim2SF y))).
Proof.
  intros Hx Hy. rewrite leb_spec.
  apply SFleb_key; apply is_nan_view; assumption.
Qed.

Lemma leb_refl (x : float) : is_nan x = false -> (x <=? x) = true.
Proof.
  intros Hx. apply leb_key; [assumption..|].
  destruct (sf_key (Prim2SF x)) as [[a b] c]. cbn. lia.
Qed.

Lemma leb_total (x y : float) :
  is_nan x = false -> is_nan y = false -> (x <=? y) = false -> (y <=? x) = true.
Proof.
  intros Hx Hy H. apply leb_key; [assumption..|].
  assert (Hn : ~ key_le (sf_key (Prim2SF x)) (sf_key (Prim2SF y))).
  { intros K. apply (leb_key x y Hx Hy) in K. congruence. }
  destruct (sf_key (Prim2SF x)) as [[a b] c].
  destruct (sf_key (Prim2SF y)) as [[a' b'] c']. cbn in *. lia.
Qed.

Lemma leb_trans (x y z : float) :
  is_nan x = false -> is_nan y = false -> is_nan z = false ->
  (x <=? y) = true -> (y <=? z) = true -> (x <=? z) = true.
Proof.
  intros Hx Hy Hz H1 H2. apply leb_key; [assumption..|].
  apply (leb_key x y Hx Hy) in H1. apply (leb_key y z Hy Hz) in H2.
  destruct (sf_key (Prim2SF x)) as [[a b] c].
  destruct (sf_key (Prim2SF y)) as [[a' b'] c'].
  destruct (sf_key (Prim2SF z)) as [[a'' b''] c'']. cbn in *. lia.
Qed.

Lemma leb_nan_l (x y : float) : is_nan x = true -> (x <=? y) = false.
Proof.
  unfold is_nan. rewrite FloatAxioms.eqb_spec, leb_spec.
  destruct (Prim2SF x) as [s|s| |s m e]; try reflexivity.
  - destruct s; discriminate.
  - destruct s; discriminate.
  - unfold SFeqb. rewrite SFcompare_refl_finite. discriminate.
Qed.

End IEEE.

Import IEEE.

(** * The kernels *)

Lemma np_sub_same_length (x1 x2 : point) :
  length x1 = length x2 -> np_sub x1 x2 = Some (zip_with sub x1 x2).
Proof.
  intros H. unfold np_sub, np_binop. rewrite decide_True by exact H. reflexivity.
Qed.

Lemma np_dot_same_length (dot : point -> point -> float) (a b : point) :
  length a = length b -> np_dot dot a b = Some (dot a b).
Proof. intros H. unfold np_dot. rewrite decide_True by exact H. reflexivity. Qed.

Section KernelFacts.
Variable exp : float -> float.
Variable pow2 : float -> option float.
Variable dot : point -> point -> float.

(** On points of one dimension a kernel raises exactly when a square does
    (or, for [ARD_matern], the square root). *)
Lemma squared_exp_eval (k : kernels) (x1 x2 : point) :
  length x1 = length x2 ->
  squared_exp exp pow2 dot k x1 x2
  = (t2 ← pow2 (t k); l2 ← pow2 (l k);
     Some (t2 * exp (- dot (zip_with sub x1 x2) (zip_with sub x1 x2) / (2 * l2)))).
Proof.
  intros H. unfold squared_exp.
  destruct (pow2 (t k)) as [t2|]; [|reflexivity]. cbn [mbind option_bind].
  rewrite np_sub_same_length by exact H. cbn [mbind option_bind].
  rewrite np_dot_same_length by reflexivity. reflexivity.
Qed.

Lemma ARD_matern_eval (k : kernels) (x1 x2 : point) :
  length x1 = length x2 ->
  ARD_matern exp pow2 dot k x1 x2
  = (l2 ← pow2 (l k);
     t2 ← pow2 (t k);
     s ← math_sqrt (5 * (dot (zip_with sub x1 x2) (zip_with sub x1 x2) / l2));
     Some (t2 * (1 + s + (5 / 3) * (dot (zip_with sub x1 x2) (zip_with sub x1 x2) / l2))
           * exp (- s))).
Proof.
  intros H. unfold ARD_matern.
  rewrite np_sub_same_length by exact H. cbn [mbind option_bind].
  rewrite np_dot_same_length by reflexivity. cbn [mbind option_bind].
  destruct (pow2 (l k)) as [l2|]; [|reflexivity]. cbn [mbind option_bind].
  destruct (pow2 (t k)) as [t2|]; [|reflexivity]. cbn [mbind option_bind].
  destruct (math_sqrt _) as [s|]; reflexivity.
Qed.

End KernelFacts.

(** ** The stand-ins have the facts that the statements assume *)

Lemma no_minus_sign_clear (x : float) : no_minus_sign x <-> sign_clear x.
Proof.
  unfold no_minus_sign, sign_clear. split.
  - intros H. rewrite <- H, abs_spec.
    destruct (Prim2SF x) as [s|s| |s m e]; cbn; try exact I; reflexivity.
  - intros H. apply Prim2SF_inj. rewrite abs_spec.
    destruct (Prim2SF x) as [s|s| |s m e]; cbn in *; subst; reflexivity.
Qed.

Lemma pow2_step_no_minus : pow2_no_minus pow2_step.
Proof.
  intros x r. unfold pow2_step.
  destruct (is_finite x && is_infinity (x * x)); [discriminate|].
  intros [= <-]. apply no_minus_sign_clear, sign_clear_square.
Qed.

Lemma dot_sum_symmetric : dot_symmetric dot_sum.
Proof.
  intros a b. unfold dot_sum. generalize 0. revert b.
  induction a as [|x a IH]; intros [|y b] acc; try reflexivity.
  cbn [zip zip_with foldl fst snd]. rewrite (mul_comm x y). apply IH.
Qed.

Lemma same_squares_dot (d d' : point) :
  same_squares d d' -> dot_sum d d = dot_sum d' d'.
Proof.
  unfold dot_sum. generalize 0.
  intros acc H. revert acc. induction H as [|u v d d' Huv _ IH]; intros acc.
  - reflexivity.
  - cbn [zip zip_with foldl fst snd]. rewrite Huv. apply IH.
Qed.

Lemma dot_sum_self_even : dot_self_even dot_sum.
Proof.
  intros d d' H. apply same_squares_dot.
  induction H as [|u v d d' [-> | ->] _ IH]; constructor; try exact IH.
  - reflexivity.
  - symmetry. apply mul_opp_opp.
Qed.

Lemma dot_sum_self_zeros : dot_self_zeros dot_sum.
Proof.
  intros n. unfold dot_sum. induction n as [|n IH]; [reflexivity|].
  cbn [replicate zip zip_with foldl fst snd].
  change (0 + 0 * 0) with 0. exact IH.
Qed.

Lemma dot_sum_self_no_minus : dot_self_no_minus dot_sum.
Proof.
  intros d. apply no_minus_sign_clear.
  unfold dot_sum. assert (H0 : sign_clear 0) by reflexivity. revert H0.
  generalize 0. induction d as [|x d IH]; intros acc Hacc; [exact Hacc|].
  cbn [zip zip_with foldl fst snd]. apply IH.
  apply sign_clear_add; [exact Hacc | apply sign_clear_square].
Qed.

(** The stand-in adds the squares as the formula of the specification does. *)
Lemma dot_sum_self (d : point) : dot_sum d d = sq_norm d.
Proof.
  unfold dot_sum, sq_norm. generalize 0.
  induction d as [|x d IH]; intros acc; [reflexivity|].
  cbn [zip zip_with foldl fst snd]. apply IH.
Qed.

Lemma exp_step_not_neg (x : float) : (exp_step x <? 0) = false.
Proof.
  unfold exp_step.
  destruct (is_nan x), (x =? 0), (x <? 0), (x =? neg_infinity), (x =? infinity);
    reflexivity.
Qed.

(** ** The formula of [squared_exp] *)

(** C6, counterexample. With [t = 2^600] the square [t ** 2] overflows:
    Python raises [OverflowError] and [squared_exp] returns nothing; the same
    with [l = 2^600]. *)
Lemma C6_square_overflows :
  squared_exp exp_step pow2_step dot_sum {| t := 0x1p+600; l := 1 |} [0; 0] [0; 0] = None /\
  squared_exp exp_step pow2_step dot_sum {| t := 1; l := 0x1p+600 |} [0; 0] [0; 0] = None /\
  ~ C6_claim.
Proof.
  repeat (split; [reflexivity|]).
  intros H.
  specialize (H exp_step pow2_step dot_sum eq_refl
                {| t := 0x1p+600; l := 1 |} [0; 0] [0; 0] eq_refl).
  vm_compute in H. discriminate.
Qed.

(** C6, amended. On points of one dimension [squared_exp] raises when a
    square [t ** 2] or [l ** 2] overflows, and otherwise returns
    [t**2 · exp(−(n / (2·l**2)))] with [n = numpy.dot(x1 − x2, x1 − x2)]; this
    is the formula of the specification, written with products and a sum of
    squares, wherever the two squares are those products and [n] is that sum.
    With [t = 1], [l = 1] it returns [1] on [[0,0]], [[0,0]] and [exp(−0.5)]
    on [[0,0]], [[1,0]], given that [1 ** 2] is [1], that [numpy.dot] is [0]
    on [[0,0]] and [1] on [[-1,0]] with themselves, and that [math.exp]
    returns [1] at [-0.0]. *)
Theorem C6_squared_exp_formula (exp : float -> float) (pow2 : float -> option float)
    (dot : point -> point -> float) (k : kernels) (x1 x2 : point) :
  length x1 = length x2 ->
  (pow2 (t k) = None \/ pow2 (l k) = None ->
   squared_exp exp pow2 dot k x1 x2 = None) /\
  (forall t2 l2, pow2 (t k) = Some t2 -> pow2 (l k) = Some l2 ->
   squared_exp exp pow2 dot k x1 x2
   = Some (t2 * exp (- (dot (zip_with sub x1 x2) (zip_with sub x1 x2) / (2 * l2)))) /\
   (t2 = t k * t k -> l2 = l k * l k ->
    dot (zip_with sub x1 x2) (zip_with sub x1 x2) = sq_norm (zip_with sub x1 x2) ->
    squared_exp exp pow2 dot k x1 x2 = Some (squared_exp_spec exp k x1 x2))) /\
  (pow2 1 = Some 1 -> exp (-0) = 1 -> dot [0; 0] [0; 0] = 0 ->
   squared_exp exp pow2 dot {| t := 1; l := 1 |} [0; 0] [0; 0] = Some 1) /\
  (pow2 1 = Some 1 -> dot [-1; 0] [-1; 0] = 1 ->
   squared_exp exp pow2 dot {| t := 1; l := 1 |} [0; 0] [1; 0] = Some (exp (-0.5))).
Proof.
  intros Hlen. split; [|split; [|split]].
  - rewrite squared_exp_eval by exact Hlen.
    intros [H|H]; rewrite H; [reflexivity|].
    destruct (pow2 (t k)); reflexivity.
  - intros t2 l2 Ht Hl.
    assert (Hv : squared_exp exp pow2 dot k x1 x2
                 = Some (t2 * exp (- (dot (zip_with sub x1 x2) (zip_with sub x1 x2)
                                      / (2 * l2))))).
    { rewrite squared_exp_eval by exact Hlen. rewrite Ht, Hl.
      cbn [mbind option_bind]. rewrite opp_div. reflexivity. }
    split; [exact Hv|].
    intros -> -> Hn. rewrite Hv. unfold squared_exp_spec. rewrite Hn. reflexivity.
  - intros H1 Hexp H0. rewrite squared_exp_eval by reflexivity.
    cbn [t l]. rewrite H1. cbn [mbind option_bind zip_with].
    change (0 - 0) with 0. rewrite H0.
    change (- 0 / (2 * 1)) with (-0). rewrite Hexp. reflexivity.
  - intros H1 H0. rewrite squared_exp_eval by reflexivity.
    cbn [t l]. rewrite H1. cbn [mbind option_bind zip_with].
    change (0 - 1) with (-1). change (0 - 0) with 0. rewrite H0.
    change (- 1 / (2 * 1)) with (-0.5). rewrite mul_1_l. reflexivity.
Qed.

Lemma C6_squared_exp_formula_witness :
  squared_exp exp_step pow2_step dot_sum {| t := 3; l := 2 |} [1; 2] [4; 6]
  = Some (9 * exp_step (- (dot_sum [-3; -4] [-3; -4] / (2 * 4)))) /\
  squared_exp exp_step pow2_step dot_sum {| t := 3; l := 2 |} [1; 2] [4; 6]
  = Some (squared_exp_spec exp_step {| t := 3; l := 2 |} [1; 2] [4; 6]) /\
  squared_exp exp_step pow2_step dot_sum {| t := 1; l := 1 |} [0; 0] [0; 0] = Some 1 /\
  squared_exp exp_step pow2_step dot_sum {| t := 1; l := 1 |} [0; 0] [1; 0]
  = Some (exp_step (-0.5)).
Proof.
  destruct (C6_squared_exp_formula exp_step pow2_step dot_sum {| t := 3; l := 2 |}
              [1; 2] [4; 6] eq_refl) as (_ & H12 & H3 & H4).
  destruct (H12 9 4 eq_refl eq_refl) as [H1 H2].
  split; [exact H1|]. split; [apply H2; reflexivity|].
  split; [apply H3; reflexivity | apply H4; reflexivity].
Defined.

(** ** Self-similarity *)

Lemma zip_sub_diag (x : point) :
  Forall (fun c => is_finite c = true) x ->
  zip_with sub x x = replicate (length x) 0.
Proof.
  induction 1 as [|c x Hc _ IH]; [reflexivity|].
  cbn [zip_with length replicate]. rewrite IH, (sub_diag c Hc). reflexivity.
Qed.

Lemma exp_at_zero (exp : float -> float) (z : float) :
  exp 0 = 1 -> exp (-0) = 1 -> (z =? 0) = true -> exp z = 1.
Proof. intros H0 H1 Hz. destruct (is_zero_view z Hz) as [-> | ->]; assumption. Qed.

(** C7, counterexample. With [l = 0] and [x = [0]] the exponent is
    [-0.0 / 0.0], which is NaN, and both kernels return NaN where [t ** 2] is
    [1].  The same happens when [l] is so small that its square underflows to
    zero, and when a coordinate is infinite, since [inf - inf] is NaN. *)
Lemma C7_zero_length_scale :
  squared_exp exp_step pow2_step dot_sum {| t := 1; l := 0 |} [0] [0] = Some nan /\
  ARD_matern exp_step pow2_step dot_sum {| t := 1; l := 0 |} [0] [0] = Some nan /\
  squared_exp exp_step pow2_step dot_sum {| t := 1; l := 0x1p-600 |} [0] [0] = Some nan /\
  squared_exp exp_step pow2_step dot_sum {| t := 1; l := 1 |} [infinity] [infinity]
  = Some nan /\
  ~ C7_claim.
Proof.
  repeat (split; [reflexivity|]).
  intros H.
  destruct (H exp_step pow2_step dot_sum eq_refl eq_refl dot_sum_self_zeros
              {| t := 1; l := 0 |} [0] 1 eq_refl) as [Hs _].
  apply (f_equal (fun r => match r with Some v => is_nan v | None => false end)) in Hs.
  vm_compute in Hs. discriminate.
Qed.

(** C7, amended. For every point [x] with finite coordinates, every [t]
    whose square [t ** 2] Python computes and every [l] whose square
    [l ** 2] it computes as a nonzero number, [squared_exp(x, x)] and
    [ARD_matern(x, x)] return [t ** 2].  [math.exp] is assumed to return
    [1] at both zeros and [numpy.dot] to return [0] on zeros. *)
Theorem C7_self_similarity (exp : float -> float) (pow2 : float -> option float)
    (dot : point -> point -> float) (k : kernels) (x : point) (t2 l2 : float) :
  exp 0 = 1 -> exp (-0) = 1 -> dot_self_zeros dot ->
  Forall (fun c => is_finite c = true) x ->
  pow2 (t k) = Some t2 -> pow2 (l k) = Some l2 ->
  (l2 =? 0) = false -> is_nan l2 = false ->
  squared_exp exp pow2 dot k x x = Some t2 /\
  ARD_matern exp pow2 dot k x x = Some t2.
Proof.
  intros H0 H1 Hdot Hx Ht Hl2 Hl Hn. split.
  - rewrite squared_exp_eval by reflexivity. rewrite Ht, Hl2.
    cbn [mbind option_bind].
    rewrite (zip_sub_diag x Hx), Hdot.
    destruct (two_mul_nonzero _ Hl Hn) as [Hd Hdn].
    rewrite (exp_at_zero exp _ H0 H1 (zero_div (-0) _ eq_refl Hd Hdn)).
    rewrite mul_1_r. reflexivity.
  - rewrite ARD_matern_eval by reflexivity. rewrite Ht, Hl2.
    cbn [mbind option_bind].
    rewrite (zip_sub_diag x Hx), Hdot.
    destruct (is_zero_view _ (zero_div 0 _ eq_refl Hl Hn)) as [-> | ->].
    + change (math_sqrt (5 * 0)) with (Some 0). cbn [mbind option_bind].
      change (1 + 0 + 5 / 3 * 0) with 1. change (- 0) with (-0).
      rewrite H1, !mul_1_r. reflexivity.
    + change (math_sqrt (5 * -0)) with (Some (-0)). cbn [mbind option_bind].
      change (1 + -0 + 5 / 3 * -0) with 1. change (- -0) with 0.
      rewrite H0, !mul_1_r. reflexivity.
Qed.

Lemma C7_self_similarity_witness :
  squared_exp exp_step pow2_step dot_sum {| t := 3; l := 0.5 |} [1; -2.5] [1; -2.5]
  = Some 9 /\
  ARD_matern exp_step pow2_step dot_sum {| t := 3; l := 0.5 |} [1; -2.5] [1; -2.5]
  = Some 9.
Proof.
  apply (C7_self_similarity exp_step pow2_step dot_sum {| t := 3; l := 0.5 |}
           [1; -2.5] 9 0.25);
    try reflexivity.
  - exact dot_sum_self_zeros.
  - repeat constructor.
Defined.

(** ** Signs *)

(** [math.exp] raises [OverflowError] only when its result overflows, which
    takes an argument above 709.  The kernels pass it an argument that is
    never above zero, whatever the points and the scales are, as long as the
    squares and the dot product of an array with itself have no minus sign. *)
Lemma squared_exp_exponent_not_positive (n l2 : float) :
  no_minus_sign n -> no_minus_sign l2 -> (0 <? - n / (2 * l2)) = false.
Proof.
  intros Hn Hl. apply no_minus_sign_clear in Hn. apply no_minus_sign_clear in Hl.
  apply div_not_pos.
  - apply opp_not_pos, Hn.
  - apply sign_clear_mul; [reflexivity | exact Hl].
Qed.

Lemma ARD_matern_exponent_not_positive (n l2 : float) :
  no_minus_sign n -> no_minus_sign l2 -> (0 <? - sqrt (5 * (n / l2))) = false.
Proof.
  intros Hn Hl. apply no_minus_sign_clear in Hn. apply no_minus_sign_clear in Hl.
  apply opp_not_pos, sign_clear_sqrt, sign_clear_mul; [reflexivity|].
  apply sign_clear_div; assumption.
Qed.

(** C8, counterexample. [trivial] with [t = 1] on [[1]] and [[-1]] returns
    [-1].  (The other two kernels can return NaN, which is not a nonnegative
    number either: [squared_exp] with [l = 0] on [[0]], [[0]].) *)
Lemma C8_trivial_negative :
  trivial dot_sum {| t := 1; l := 1 |} [1] [-1] = Some (-1) /\
  squared_exp exp_step pow2_step dot_sum {| t := 1; l := 0 |} [0] [0] = Some nan /\
  ~ C8_claim.
Proof.
  repeat (split; [reflexivity|]).
  intros H.
  destruct (H exp_step pow2_step dot_sum exp_step_not_neg pow2_step_no_minus
              dot_sum_self_no_minus {| t := 1; l := 1 |} [1] [-1] eq_refl)
    as (_ & _ & Ht).
  specialize (Ht (-1) eq_refl). vm_compute in Ht. discriminate.
Qed.

(** C8, amended. For points of one dimension and scales whose squares
    Python computes, [squared_exp] and [ARD_matern] return (the square root
    in [ARD_matern] does not raise), and the number returned is never below
    zero: it is at least zero whenever it is not NaN.  [math.exp] is assumed
    never to return a number below zero, and a square [x ** 2] and
    [numpy.dot] of an array with itself to have no minus sign. *)
Theorem C8_kernels_not_negative (exp : float -> float) (pow2 : float -> option float)
    (dot : point -> point -> float) (k : kernels) (x1 x2 : point) (t2 l2 : float) :
  (forall x, (exp x <? 0) = false) ->
  pow2_no_minus pow2 -> dot_self_no_minus dot ->
  length x1 = length x2 ->
  pow2 (t k) = Some t2 -> pow2 (l k) = Some l2 ->
  exists r1 r2,
    squared_exp exp pow2 dot k x1 x2 = Some r1 /\
    ARD_matern exp pow2 dot k x1 x2 = Some r2 /\
    (r1 <? 0) = false /\ (is_nan r1 = false -> (0 <=? r1) = true) /\
    (r2 <? 0) = false /\ (is_nan r2 = false -> (0 <=? r2) = true).
Proof.
  intros Hexp Hpow Hdot Hlen Ht2 Hl2.
  set (d := zip_with sub x1 x2).
  pose proof (proj1 (no_minus_sign_clear _) (Hdot d)) as Hdd.
  pose proof (proj1 (no_minus_sign_clear _) (Hpow _ _ Ht2)) as Ht.
  pose proof (proj1 (no_minus_sign_clear _) (Hpow _ _ Hl2)) as Hl.
  assert (Hr2 : sign_clear (dot d d / l2))
    by (apply sign_clear_div; assumption).
  assert (H5 : sign_clear (5 * (dot d d / l2)))
    by (apply sign_clear_mul; [reflexivity | assumption]).
  assert (Hsum : sign_clear (1 + sqrt (5 * (dot d d / l2)) + 5 / 3 * (dot d d / l2))).
  { apply sign_clear_add; [apply sign_clear_add; [reflexivity|] |].
    - apply sign_clear_sqrt. exact H5.
    - apply sign_clear_mul; [reflexivity | assumption]. }
  eexists _, _. split.
  { rewrite squared_exp_eval by exact Hlen. rewrite Ht2, Hl2. reflexivity. }
  split.
  { rewrite ARD_matern_eval by exact Hlen. rewrite Ht2, Hl2.
    cbn [mbind option_bind]. fold d.
    unfold math_sqrt. rewrite (sign_clear_not_neg _ H5).
    cbn [mbind option_bind]. reflexivity. }
  assert (Hs : (t2 * exp (- dot d d / (2 * l2)) <? 0) = false).
  { apply mul_not_neg; [apply sign_clear_not_neg; exact Ht | apply Hexp]. }
  assert (Ha : (t2 * (1 + sqrt (5 * (dot d d / l2)) + 5 / 3 * (dot d d / l2))
                * exp (- sqrt (5 * (dot d d / l2))) <? 0) = false).
  { apply mul_not_neg; [|apply Hexp].
    apply sign_clear_not_neg, sign_clear_mul; assumption. }
  repeat split; try assumption; intros Hnan; apply not_neg_le; assumption.
Qed.

Lemma C8_kernels_not_negative_witness :
  exists r1 r2,
    squared_exp exp_step pow2_step dot_sum {| t := -3; l := 2 |} [1; 2] [4; 6] = Some r1 /\
    ARD_matern exp_step pow2_step dot_sum {| t := -3; l := 2 |} [1; 2] [4; 6] = Some r2 /\
    (r1 <? 0) = false /\ (is_nan r1 = false -> (0 <=? r1) = true) /\
    (r2 <? 0) = false /\ (is_nan r2 = false -> (0 <=? r2) = true).
Proof.
  apply (C8_kernels_not_negative exp_step pow2_step dot_sum {| t := -3; l := 2 |}
           [1; 2] [4; 6] 9 4).
  - exact exp_step_not_neg.
  - exact pow2_step_no_minus.
  - exact dot_sum_self_no_minus.
  - reflexivity.
  - reflexivity.
  - reflexivity.
Defined.

(** * The covariance builder *)

(** Writing index [m] of an array whose first [m] entries are filled. *)
Lemma insert_frontier {A : Type} (f : nat -> A) (z : A) (m k : nat) :
  <[m := f m]> (map f (seq 0 m) ++ replicate (S k) z)
  = map f (seq 0 (S m)) ++ replicate k z.
Proof.
  rewrite insert_app_r_alt by (rewrite length_map, length_seq; lia).
  rewrite length_map, length_seq, Nat.sub_diag. cbn [replicate].
  rewrite seq_S, map_app, <- app_assoc. reflexivity.
Qed.

Lemma setitem_lt {A : Type} (l : list A) (i : nat) (v : A) :
  (i < length l)%nat -> setitem l i v = Some (<[i := v]> l).
Proof. intros H. unfold setitem. rewrite decide_True by exact H. reflexivity. Qed.

Section CovarianceFacts.
Variable kernel : point -> point -> option float.
Variables X1 X2 : list point.

Lemma kval_eq (i j : nat) (a b : point) :
  X1 !! i = Some a -> X2 !! j = Some b -> returns_at kernel X1 X2 i j ->
  kernel a b = Some (kval kernel X1 X2 i j).
Proof.
  intros Ha Hb Hr. unfold kval. rewrite Ha, Hb. cbn [mbind option_bind].
  destruct (Hr a b Ha Hb) as [k ->]. reflexivity.
Qed.

Lemma foldl_None {S : Type} (f : option S -> nat -> option S) (rows : list nat) :
  (forall r, f None r = None) -> foldl f None rows = None.
Proof. intros Hf. induction rows as [|r rows IH]; [reflexivity|]. cbn. rewrite Hf. exact IH. Qed.

(** *** Fast mode *)

Lemma fast_loop (m : nat) :
  (m <= length X1)%nat -> (m <= length X2)%nat ->
  (forall i, (i < m)%nat -> returns_at kernel X1 X2 i i) ->
  foldl (fast_body kernel X1 X2) (Some (np_zeros (length X1))) (seq 0 m)
  = Some (map (fun i => kval kernel X1 X2 i i) (seq 0 m) ++ replicate (length X1 - m) 0).
Proof.
  induction m as [|m IH]; intros H1 H2 Hk.
  - cbn [seq foldl map app]. rewrite Nat.sub_0_r. reflexivity.
  - rewrite seq_S, foldl_app, IH by (try lia; intros; apply Hk; lia).
    cbn [foldl Nat.add]. unfold fast_body. cbn [mbind option_bind].
    destruct (lookup_lt_is_Some_2 X1 m ltac:(lia)) as [a Ha].
    destruct (lookup_lt_is_Some_2 X2 m ltac:(lia)) as [b Hb].
    rewrite Ha, Hb. cbn [mbind option_bind].
    rewrite (kval_eq m m a b Ha Hb (Hk m ltac:(lia))). cbn [mbind option_bind].
    rewrite setitem_lt
      by (rewrite length_app, length_map, length_seq, length_replicate; lia).
    replace (length X1 - m)%nat with (S (length X1 - S m)) by lia.
    rewrite (insert_frontier (fun i => kval kernel X1 X2 i i)), seq_S. reflexivity.
Qed.

Lemma fast_loop_overrun :
  (length X1 < length X2)%nat -> covariance_fast kernel X1 X2 = None.
Proof.
  intros Hlt. unfold covariance_fast.
  replace (length X2) with (length X1 + S (length X2 - S (length X1)))%nat by lia.
  rewrite seq_app, foldl_app. cbn [seq foldl Nat.add].
  assert (Hstep : forall st, fast_body kernel X1 X2 st (length X1) = None).
  { intros [M|]; [|reflexivity]. unfold fast_body. cbn [mbind option_bind].
    rewrite (lookup_ge_None_2 X1 (length X1)) by lia. reflexivity. }
  rewrite Hstep. apply foldl_None. intros r. reflexivity.
Qed.

(** *** Full mode *)

Lemma full_inner (row1 : nat) (M0 : list (list float)) (m : nat) :
  (row1 < length X1)%nat ->
  M0 !! row1 = Some (np_zeros (length X2)) ->
  (m <= length X2)%nat ->
  (forall j, (j < m)%nat -> returns_at kernel X1 X2 row1 j) ->
  foldl (full_body kernel X1 X2 row1) (Some M0) (seq 0 m)
  = Some (<[row1 := map (kval kernel X1 X2 row1) (seq 0 m) ++ replicate (length X2 - m) 0]> M0).
Proof.
  intros Hrow HM0. induction m as [|m IH]; intros Hm Hk.
  - cbn [seq foldl map app]. rewrite Nat.sub_0_r.
    rewrite list_insert_id by exact HM0. reflexivity.
  - rewrite seq_S, foldl_app, IH by (try lia; intros; apply Hk; lia).
    cbn [foldl Nat.add]. unfold full_body. cbn [mbind option_bind].
    destruct (lookup_lt_is_Some_2 X1 row1 Hrow) as [a Ha].
    destruct (lookup_lt_is_Some_2 X2 m ltac:(lia)) as [b Hb].
    rewrite Ha, Hb. cbn [mbind option_bind].
    rewrite (kval_eq row1 m a b Ha Hb (Hk m ltac:(lia))). cbn [mbind option_bind].
    pose proof (lookup_lt_Some _ _ _ HM0) as Hlen.
    unfold setitem2. rewrite list_lookup_insert_eq by exact Hlen.
    cbn [mbind option_bind].
    rewrite setitem_lt
      by (rewrite length_app, length_map, length_seq, length_replicate; lia).
    cbn [mbind option_bind].
    rewrite setitem_lt by (rewrite length_insert; exact Hlen).
    rewrite list_insert_insert_eq.
    replace (length X2 - m)%nat with (S (length X2 - S m)) by lia.
    rewrite (insert_frontier (kval kernel X1 X2 row1)), seq_S. reflexivity.
Qed.

Lemma full_outer (n : nat) :
  (n <= length X1)%nat ->
  (forall i j, (i < n)%nat -> (j < length X2)%nat -> returns_at kernel X1 X2 i j) ->
  foldl (fun M row1 => foldl (full_body kernel X1 X2 row1) M (seq 0 (length X2)))
        (Some (replicate (length X1) (np_zeros (length X2)))) (seq 0 n)
  = Some (map (fun i => map (kval kernel X1 X2 i) (seq 0 (length X2))) (seq 0 n)
          ++ replicate (length X1 - n) (np_zeros (length X2))).
Proof.
  induction n as [|n IH]; intros Hn Hk.
  - cbn [seq foldl map app]. rewrite Nat.sub_0_r. reflexivity.
  - rewrite seq_S, foldl_app, IH by (try lia; intros; apply Hk; lia).
    cbn [foldl Nat.add].
    rewrite (full_inner n _ (length X2)); try lia.
    + rewrite Nat.sub_diag. cbn [replicate]. rewrite app_nil_r.
      replace (length X1 - n)%nat with (S (length X1 - S n)) by lia.
      rewrite (insert_frontier (fun i => map (kval kernel X1 X2 i) (seq 0 (length X2)))), seq_S.
      reflexivity.
    + rewrite lookup_app_r by (rewrite length_map, length_seq; lia).
      rewrite length_map, length_seq, Nat.sub_diag.
      apply lookup_replicate_2. lia.
    + intros j Hj. apply Hk; lia.
Qed.
End CovarianceFacts.

Lemma returns_at_of_elem (kernel : point -> point -> option float) (X1 X2 : list point) :
  (forall a b, a ∈ X1 -> b ∈ X2 -> is_Some (kernel a b)) ->
  forall i j, returns_at kernel X1 X2 i j.
Proof.
  intros H i j a b Ha Hb.
  apply H; eapply list_elem_of_lookup_2; eassumption.
Qed.

Lemma covariance_full_rows (kernel : point -> point -> option float) (X1 X2 : list point) :
  (forall i j, returns_at kernel X1 X2 i j) ->
  covariance_full kernel X1 X2
  = Some (map (fun i => map (kval kernel X1 X2 i) (seq 0 (length X2)))
              (seq 0 (length X1))).
Proof.
  intros Hk. unfold covariance_full.
  rewrite full_outer by (try lia; intros; apply Hk).
  rewrite Nat.sub_diag. cbn [replicate]. rewrite app_nil_r. reflexivity.
Qed.

Lemma covariance_fast_rows (kernel : point -> point -> option float) (X1 X2 : list point) :
  (length X2 <= length X1)%nat ->
  (forall i, returns_at kernel X1 X2 i i) ->
  covariance_fast kernel X1 X2
  = Some (map (fun i => kval kernel X1 X2 i i) (seq 0 (length X2))
          ++ replicate (length X1 - length X2) 0).
Proof.
  intros Hlen Hk. unfold covariance_fast.
  apply fast_loop; [lia | lia | intros; apply Hk].
Qed.

(** Every pair of rows of two small point sets, for the examples below. *)
Lemma trivial_returns_on (dot : point -> point -> float) (k : kernels)
    (X1 X2 : list point) (n : nat) :
  Forall (fun a => length a = n) X1 -> Forall (fun b => length b = n) X2 ->
  forall a b, a ∈ X1 -> b ∈ X2 -> is_Some (trivial dot k a b).
Proof.
  intros H1 H2 a b Ha Hb.
  rewrite Forall_forall in H1. rewrite Forall_forall in H2.
  unfold trivial, np_dot.
  rewrite decide_True by (rewrite (H1 a Ha), (H2 b Hb); reflexivity).
  eexists. reflexivity.
Qed.

(** The prologue of [covariance] turns each input into the points that the
    specification reads in it. *)
Lemma as_rows_spec_points (X : ndarray) : as_rows X = spec_points X.
Proof. destruct X; reflexivity. Qed.

(** C4. With [fast=False], for a point set [A] of [N] points and a point set
    [B] of [M] points, each a matrix of one point per row or a bare vector
    that is one point, and a kernel that returns on their pairs, [covariance]
    returns a matrix of [N] rows of length [M] whose entry [(i, j)] is
    [kernel(A_i, B_j)]; [N] and [M] need not be equal. *)
Theorem C4_covariance_full_matrix (kernel : point -> point -> option float)
    (A B : ndarray) :
  (forall a b, a ∈ spec_points A -> b ∈ spec_points B -> is_Some (kernel a b)) ->
  exists M,
    covariance kernel A B false = Some (Arr2 M) /\
    length M = length (spec_points A) /\
    Forall (fun r => length r = length (spec_points B)) M /\
    forall i j a b, spec_points A !! i = Some a -> spec_points B !! j = Some b ->
      (M !! i) ≫= (fun r => r !! j) = kernel a b.
Proof.
  rewrite <- (as_rows_spec_points A), <- (as_rows_spec_points B).
  intros Hk'. pose proof (returns_at_of_elem _ _ _ Hk') as Hk.
  unfold covariance. rewrite covariance_full_rows by exact Hk.
  eexists. split; [reflexivity|]. split; [|split].
  - rewrite length_map, length_seq. reflexivity.
  - apply Forall_forall. intros r Hr. apply list_elem_of_fmap in Hr.
    destruct Hr as (i & -> & _). rewrite length_map, length_seq. reflexivity.
  - intros i j a b Ha Hb.
    rewrite list_lookup_fmap, (lookup_seq_lt 0 _ i (lookup_lt_Some _ _ _ Ha)).
    cbn [fmap option_fmap option_map mbind option_bind Nat.add].
    rewrite list_lookup_fmap, (lookup_seq_lt 0 _ j (lookup_lt_Some _ _ _ Hb)).
    cbn [fmap option_fmap option_map Nat.add].
    symmetry. apply kval_eq; [exact Ha | exact Hb | apply Hk].
Qed.

Lemma C4_covariance_full_matrix_witness :
  exists M,
    covariance (trivial dot_sum {| t := 2; l := 1 |})
      (Arr2 [[1; 0]; [0; 1]; [1; 1]]) (Arr1 [3; 4]) false = Some (Arr2 M) /\
    length M = 3%nat /\
    Forall (fun r => length r = 1%nat) M /\
    forall i j a b,
      [[1; 0]; [0; 1]; [1; 1]] !! i = Some a ->
      [[3; 4]] !! j = Some b ->
      (M !! i) ≫= (fun r => r !! j) = trivial dot_sum {| t := 2; l := 1 |} a b.
Proof.
  apply (C4_covariance_full_matrix (trivial dot_sum {| t := 2; l := 1 |})
           (Arr2 [[1; 0]; [0; 1]; [1; 1]]) (Arr1 [3; 4])).
  apply (trivial_returns_on _ _ _ _ 2%nat); repeat constructor.
Defined.

(** C5. With [fast=True] on [(A, A)], for a point set [A] of [N] points and a
    kernel that returns on the pairs of its points, [covariance] returns a
    vector of [N] entries whose entry [i] is [kernel(A_i, A_i)]: the diagonal
    of the matrix that [fast=False] returns on [(A, A)]. *)
Theorem C5_covariance_fast_diagonal (kernel : point -> point -> option float)
    (A : ndarray) :
  (forall a b, a ∈ spec_points A -> b ∈ spec_points A -> is_Some (kernel a b)) ->
  exists v M,
    covariance kernel A A true = Some (Arr1 v) /\
    length v = length (spec_points A) /\
    (forall i a, spec_points A !! i = Some a -> v !! i = kernel a a) /\
    covariance kernel A A false = Some (Arr2 M) /\
    (forall i, (i < length (spec_points A))%nat ->
               v !! i = (M !! i) ≫= (fun r => r !! i)).
Proof.
  rewrite <- (as_rows_spec_points A).
  intros Hk'. pose proof (returns_at_of_elem _ _ _ Hk') as Hk.
  unfold covariance.
  rewrite covariance_full_rows by exact Hk.
  rewrite covariance_fast_rows by (try lia; intros; apply Hk).
  rewrite Nat.sub_diag. cbn [replicate]. rewrite app_nil_r.
  eexists _, _. split; [reflexivity|]. split; [|split; [|split; [reflexivity|]]].
  - rewrite length_map, length_seq. reflexivity.
  - intros i a Ha.
    rewrite list_lookup_fmap, (lookup_seq_lt 0 _ i (lookup_lt_Some _ _ _ Ha)).
    cbn [fmap option_fmap option_map Nat.add].
    symmetry. apply kval_eq; [exact Ha | exact Ha | apply Hk].
  - intros i Hi.
    rewrite !list_lookup_fmap, (lookup_seq_lt 0 _ i Hi).
    cbn [fmap option_fmap option_map mbind option_bind Nat.add].
    rewrite list_lookup_fmap, (lookup_seq_lt 0 _ i Hi). reflexivity.
Qed.

Lemma C5_covariance_fast_diagonal_witness :
  exists v M,
    covariance (trivial dot_sum {| t := 2; l := 1 |}) (Arr2 [[1; 0]; [0; 3]; [1; 1]])
      (Arr2 [[1; 0]; [0; 3]; [1; 1]]) true = Some (Arr1 v) /\
    length v = 3%nat /\
    (forall i a, [[1; 0]; [0; 3]; [1; 1]] !! i = Some a ->
       v !! i = trivial dot_sum {| t := 2; l := 1 |} a a) /\
    covariance (trivial dot_sum {| t := 2; l := 1 |}) (Arr2 [[1; 0]; [0; 3]; [1; 1]])
      (Arr2 [[1; 0]; [0; 3]; [1; 1]]) false = Some (Arr2 M) /\
    (forall i, (i < 3)%nat -> v !! i = (M !! i) ≫= (fun r => r !! i)).
Proof.
  apply (C5_covariance_fast_diagonal (trivial dot_sum {| t := 2; l := 1 |})
           (Arr2 [[1; 0]; [0; 3]; [1; 1]])).
  apply (trivial_returns_on _ _ _ _ 2%nat); repeat constructor.
Defined.

(** C9, counterexample. With two points in [A] and one in [B], fast mode
    returns normally: the first entry is the kernel value, the second is the
    zero the result was created with. *)
Lemma C9_shorter_second_set :
  covariance (trivial dot_sum {| t := 1; l := 1 |}) (Arr2 [[1]; [1]]) (Arr2 [[1]]) true
  = Some (Arr1 [1; 0]) /\
  ~ C9_claim.
Proof.
  split; [reflexivity|].
  intros H.
  specialize (H (trivial dot_sum {| t := 1; l := 1 |}) (Arr2 [[1]; [1]]) (Arr2 [[1]])
                ltac:(discriminate)).
  vm_compute in H. discriminate.
Qed.

(** C9, amended. In fast mode with [len(A) ≠ len(B)]: when [B] is the longer
    set the call fails (the row index runs past the end of [A]); when [B] is
    the shorter set and the kernel returns on the aligned pairs, the call
    returns a vector of [len(A)] entries, [kernel(A_i, B_i)] for
    [i < len(B)] and [0] from [len(B)] on. *)
Theorem C9_fast_length_mismatch (kernel : point -> point -> option float)
    (A B : ndarray) :
  n_points A <> n_points B ->
  ((n_points A < n_points B)%nat -> covariance kernel A B true = None) /\
  ((n_points B < n_points A)%nat ->
   (forall i a b, as_rows A !! i = Some a -> as_rows B !! i = Some b ->
                  is_Some (kernel a b)) ->
   exists v,
     covariance kernel A B true = Some (Arr1 v) /\
     length v = n_points A /\
     (forall i a b, as_rows A !! i = Some a -> as_rows B !! i = Some b ->
                    v !! i = kernel a b) /\
     (forall i, (n_points B <= i < n_points A)%nat -> v !! i = Some 0)).
Proof.
  intros _. unfold n_points, covariance. split.
  - intros Hlt. rewrite fast_loop_overrun by exact Hlt. reflexivity.
  - intros Hlt Hk.
    rewrite covariance_fast_rows by (try lia; intros i a b; apply Hk).
    eexists. split; [reflexivity|]. split; [|split].
    + rewrite length_app, length_map, length_seq, length_replicate. lia.
    + intros i a b Ha Hb. pose proof (lookup_lt_Some _ _ _ Hb) as Hi.
      rewrite lookup_app_l by (rewrite length_map, length_seq; exact Hi).
      rewrite list_lookup_fmap, (lookup_seq_lt 0 _ i Hi).
      cbn [fmap option_fmap option_map Nat.add].
      symmetry. apply kval_eq; [exact Ha | exact Hb | intros a' b'; apply Hk].
    + intros i [Hlo Hhi].
      rewrite lookup_app_r by (rewrite length_map, length_seq; exact Hlo).
      rewrite length_map, length_seq. apply lookup_replicate_2. lia.
Qed.

Lemma C9_fast_length_mismatch_witness :
  exists v,
    covariance (trivial dot_sum {| t := 1; l := 1 |}) (Arr2 [[1]; [2]; [3]]) (Arr2 [[4]]) true
    = Some (Arr1 v) /\
    length v = n_points (Arr2 [[1]; [2]; [3]]) /\
    (forall i a b, as_rows (Arr2 [[1]; [2]; [3]]) !! i = Some a ->
                   as_rows (Arr2 [[4]]) !! i = Some b ->
                   v !! i = trivial dot_sum {| t := 1; l := 1 |} a b) /\
    (forall i, (n_points (Arr2 [[4]]%float) <= i < n_points (Arr2 [[1]; [2]; [3]]%float))%nat ->
               v !! i = Some 0).
Proof.
  destruct (C9_fast_length_mismatch (trivial dot_sum {| t := 1; l := 1 |})
              (Arr2 [[1]; [2]; [3]]) (Arr2 [[4]])) as [_ H].
  - discriminate.
  - apply H.
    + cbn. lia.
    + intros i a b Ha Hb.
      apply (trivial_returns_on _ _ [[1]; [2]; [3]] [[4]] 1%nat);
        [repeat constructor | repeat constructor | |];
        eapply list_elem_of_lookup_2; eassumption.
Defined.

(** * The acquisition functions *)

Lemma math_sqrt_some (v : float) : (v <? 0) = false -> math_sqrt v = Some (sqrt v).
Proof. unfold math_sqrt. intros ->. reflexivity. Qed.

(** C10. [UCB] returns the same for any two values of [ymax]; when the
    variance is not negative it returns [mean + kappa * sqrt(variance)]. *)
Theorem C10_UCB_ignores_ymax (self : acquisition) (gp : gaussian_process)
    (x : point) (ymax1 ymax2 mean var : float) :
  sample_predict gp x = (mean, var) ->
  UCB self x gp ymax1 = UCB self x gp ymax2 /\
  ((var <? 0) = false -> UCB self x gp ymax1 = Some (mean + kappa self * sqrt var)).
Proof.
  intros Hp. unfold UCB. rewrite Hp. split; [reflexivity|].
  intros Hv. rewrite (math_sqrt_some var Hv). reflexivity.
Qed.

Lemma C10_UCB_ignores_ymax_witness :
  UCB {| kappa := 2 |} [0] {| sample_predict := fun _ => (5, 4) |} 1
  = UCB {| kappa := 2 |} [0] {| sample_predict := fun _ => (5, 4) |} 7 /\
  UCB {| kappa := 2 |} [0] {| sample_predict := fun _ => (5, 4) |} 1 = Some 9.
Proof.
  destruct (C10_UCB_ignores_ymax {| kappa := 2 |}
              {| sample_predict := fun _ => (5, 4) |} [0] 1 7 5 4 eq_refl)
    as [H1 H2].
  split; [exact H1 | exact (H2 eq_refl)].
Defined.

(** C3. When the predicted variance at [x] is zero, [EI] returns [0] and
    [PoI] returns [1], whatever the mean and [ymax] are. *)
Theorem C3_zero_variance_single_point (norm_cdf norm_pdf : float -> float)
    (gp : gaussian_process) (x : point) (ymax : float) :
  (snd (sample_predict gp x) =? 0) = true ->
  EI norm_cdf norm_pdf x gp ymax = Some 0 /\ PoI norm_cdf x gp ymax = Some 1.
Proof.
  unfold EI, PoI. destruct (sample_predict gp x) as [mean var]. cbn [snd].
  intros ->. split; reflexivity.
Qed.

Lemma C3_zero_variance_single_point_witness :
  EI cdf_step pdf_step [0] {| sample_predict := fun _ => (3, 0) |} 7 = Some 0 /\
  PoI cdf_step [0] {| sample_predict := fun _ => (3, 0) |} 7 = Some 1.
Proof.
  apply (C3_zero_variance_single_point cdf_step pdf_step
           {| sample_predict := fun _ => (3, 0) |} [0] 7).
  reflexivity.
Defined.

(** ** Bulk expected improvement *)

Section FullEI.
Variables norm_cdf norm_pdf : float -> float.
Variable ymax : float.

(** Gather through the mask, compute, scatter through the mask: the net
    effect is a branch per index. *)
Lemma gather_scatter (mean sd : list float) :
  length mean = length sd ->
  exists ms ss,
    bool_index mean (map (fun s => 0 <? s) sd) = Some ms /\
    bool_index sd (map (fun s => 0 <? s) sd) = Some ss /\
    mask_assign (np_zeros (length mean)) (map (fun s => 0 <? s) sd)
      (zip_with add
         (zip_with (fun m z => (m - ymax) * norm_cdf z) ms
            (zip_with (fun m s => (m - ymax) / s) ms ss))
         (zip_with (fun s z => s * norm_pdf z) ss
            (zip_with (fun m s => (m - ymax) / s) ms ss)))
    = Some (zip_with (ei_masked norm_cdf norm_pdf ymax) mean sd).
Proof.
  revert sd. induction mean as [|m mean IH]; intros [|s sd] Hlen;
    try discriminate.
  - exists [], []. repeat split; reflexivity.
  - injection Hlen as Hlen.
    destruct (IH sd Hlen) as (ms & ss & Hms & Hss & Hassign).
    cbn [map bool_index length np_zeros replicate zip_with].
    rewrite Hms, Hss. cbn [mbind option_bind].
    unfold ei_masked at 1.
    destruct (0 <? s) eqn:Es.
    + exists (m :: ms), (s :: ss). repeat split.
      cbn [zip_with mask_assign]. fold (np_zeros (length mean)).
      rewrite Hassign. reflexivity.
    + exists ms, ss. repeat split.
      cbn [mask_assign]. fold (np_zeros (length mean)).
      rewrite Hassign. reflexivity.
Qed.

Lemma full_EI_masked (mean var : list float) :
  length mean = length var ->
  full_EI norm_cdf norm_pdf ymax mean var
  = Some (zip_with (ei_masked norm_cdf norm_pdf ymax) mean (map sqrt var)).
Proof.
  intros Hlen. unfold full_EI.
  destruct (gather_scatter mean (map sqrt var)) as (ms & ss & Hms & Hss & Hassign).
  { rewrite length_map. exact Hlen. }
  rewrite Hms, Hss. cbn [mbind option_bind]. exact Hassign.
Qed.

Lemma full_EI_length_mismatch (mean var : list float) :
  length mean <> length var -> full_EI norm_cdf norm_pdf ymax mean var = None.
Proof.
  intros Hlen. unfold full_EI.
  assert (H : forall (a : list float) (mask : list bool),
             length a <> length mask -> bool_index a mask = None).
  { induction a as [|x a IH]; intros [|b mask] Hne; cbn in *; try congruence.
    rewrite IH by congruence. reflexivity. }
  rewrite (H mean) by (rewrite !length_map; exact Hlen). reflexivity.
Qed.
End FullEI.



(** An infinite variance over finite numbers gives an infinite entry. *)
Lemma full_EI_infinite_variance :
  full_EI cdf_step pdf_step 4 [5] [infinity] = Some [infinity].
Proof. reflexivity. Qed.




(** ** Bulk probability of improvement *)

Lemma np_div_same_length (a b : point) :
  length a = length b -> np_div a b = Some (zip_with div a b).
Proof.
  intros H. unfold np_div, np_binop. rewrite decide_True by exact H. reflexivity.
Qed.

Lemma full_PoI_eval (norm_cdf : float -> float) (ymax : float) (mean var : list float) :
  length mean = length var ->
  full_PoI norm_cdf ymax mean var
  = Some (zip_with (fun m v => norm_cdf ((m - ymax) / sqrt v)) mean var).
Proof.
  intros Hlen. unfold full_PoI.
  rewrite np_div_same_length by (rewrite !length_map; exact Hlen).
  cbn [mbind option_bind]. f_equal.
  revert var Hlen. induction mean as [|m mean IH]; intros [|v var] Hlen;
    try discriminate; [reflexivity|].
  cbn [map zip_with]. f_equal. apply IH. injection Hlen as Hlen. exact Hlen.
Qed.

(** At an index of variance zero [full_PoI] evaluates the normal CDF at a
    quotient by zero: an infinity when the mean differs from [ymax], NaN when
    it equals [ymax]. *)
Lemma full_PoI_zero_variance_entry (norm_cdf : float -> float) (ymax : float)
    (mean var : list float) (i : nat) (m v : float) :
  length mean = length var ->
  mean !! i = Some m -> var !! i = Some v -> (v =? 0) = true ->
  exists p,
    full_PoI norm_cdf ymax mean var = Some p /\
    p !! i = Some (norm_cdf ((m - ymax) / sqrt v)) /\
    is_finite ((m - ymax) / sqrt v) = false /\
    ((m - ymax =? 0) = false -> is_nan (m - ymax) = false ->
       (m - ymax) / sqrt v = infinity \/ (m - ymax) / sqrt v = neg_infinity) /\
    ((m - ymax =? 0) = true -> (m - ymax) / sqrt v = nan).
Proof.
  intros Hlen Hm Hv Hz.
  assert (Hs : (sqrt v =? 0) = true)
    by (destruct (is_zero_view v Hz) as [-> | ->]; reflexivity).
  eexists. split; [apply full_PoI_eval; exact Hlen|].
  split; [rewrite lookup_zip_with, Hm, Hv; reflexivity|].
  split; [apply div_zero_not_finite; exact Hs|].
  split; [apply div_zero_inf; exact Hs | apply div_zero_zero; exact Hs].
Qed.

(** With a normal CDF that is [1] at plus infinity and [0] at minus infinity,
    the score at an index of variance zero is [0] or [1] as long as the mean
    there is a number other than [ymax]. *)
Lemma full_PoI_zero_variance_score (norm_cdf : float -> float) (ymax : float)
    (mean var : list float) (i : nat) (m v : float) :
  norm_cdf infinity = 1 -> norm_cdf neg_infinity = 0 ->
  length mean = length var ->
  mean !! i = Some m -> var !! i = Some v -> (v =? 0) = true ->
  (m - ymax =? 0) = false -> is_nan (m - ymax) = false ->
  exists p,
    full_PoI norm_cdf ymax mean var = Some p /\
    (p !! i = Some 1 \/ p !! i = Some 0).
Proof.
  intros Hp Hn Hlen Hm Hv Hz Hd Hnan.
  destruct (full_PoI_zero_variance_entry norm_cdf ymax mean var i m v
              Hlen Hm Hv Hz) as (p & Hfull & Hi & _ & Hinf & _).
  exists p. split; [exact Hfull|].
  rewrite Hi. destruct (Hinf Hd Hnan) as [-> | ->]; [left | right]; congruence.
Qed.

(** C2. At the input [mean = [5]], [variance = [0]], [ymax = 5] the quotient
    [full_PoI] forms is [0.0 / 0.0]: the normal CDF is evaluated at NaN, and
    the score is NaN, neither [0] nor [1]. *)
Theorem C2_full_PoI_zero_variance_equal_mean (norm_cdf : float -> float) :
  full_PoI norm_cdf 5 [5] [0] = Some [norm_cdf nan] /\
  full_PoI cdf_step 5 [5] [0] = Some [nan].
Proof. split; reflexivity. Qed.

(** * Beyond the statements of the specification *)

(** ** Symmetry of the kernels *)

Lemma zip_sub_swap (x1 x2 : point) :
  Forall2 (fun u v => v = u \/ v = - u) (zip_with sub x1 x2) (zip_with sub x2 x1).
Proof.
  revert x2. induction x1 as [|a x1 IH]; intros [|b x2]; try constructor.
  - destruct (sub_swap a b) as [H|H]; [right | left]; exact H.
  - apply IH.
Qed.

Lemma map_sub_swap_l (x : float) (ys : point) :
  Forall2 (fun u v => v = u \/ v = - u)
    (map (fun y => x - y) ys) (map (fun y => y - x) ys).
Proof.
  induction ys as [|y ys IH]; constructor; [|exact IH].
  destruct (sub_swap x y) as [H|H]; [right | left]; exact H.
Qed.

Lemma map_sub_swap_r (x : float) (ys : point) :
  Forall2 (fun u v => v = u \/ v = - u)
    (map (fun y => y - x) ys) (map (fun y => x - y) ys).
Proof.
  induction ys as [|y ys IH]; constructor; [|exact IH].
  destruct (sub_swap y x) as [H|H]; [right | left]; exact H.
Qed.

(** [x1 - x2] and [x2 - x1] raise together, and otherwise differ by signs. *)
Lemma np_sub_swap (x1 x2 : point) :
  match np_sub x1 x2, np_sub x2 x1 with
  | Some d, Some d' => Forall2 (fun u v => v = u \/ v = - u) d d'
  | None, None => True
  | _, _ => False
  end.
Proof.
  unfold np_sub, np_binop.
  destruct (decide (length x1 = length x2)) as [E|E].
  - rewrite decide_True by (symmetry; exact E). apply zip_sub_swap.
  - rewrite decide_False by (intros E'; apply E; symmetry; exact E').
    destruct x1 as [|a [|a' x1]], x2 as [|b [|b' x2]]; cbn [length] in E;
      try exact I; try congruence;
      try apply map_sub_swap_l; apply map_sub_swap_r.
Qed.

Lemma squared_exp_ARD_matern_swap (exp : float -> float)
    (pow2 : float -> option float) (dot : point -> point -> float)
    (k : kernels) (x1 x2 : point) :
  dot_self_even dot ->
  squared_exp exp pow2 dot k x1 x2 = squared_exp exp pow2 dot k x2 x1 /\
  ARD_matern exp pow2 dot k x1 x2 = ARD_matern exp pow2 dot k x2 x1.
Proof.
  intros Hdot. unfold squared_exp, ARD_matern.
  pose proof (np_sub_swap x1 x2) as H.
  destruct (np_sub x1 x2) as [d|], (np_sub x2 x1) as [d'|]; try contradiction;
    [|split; reflexivity].
  cbn [mbind option_bind]. unfold np_dot.
  rewrite !decide_True by reflexivity. cbn [mbind option_bind].
  rewrite (Hdot d d' H). split; reflexivity.
Qed.

Lemma trivial_swap (dot : point -> point -> float) (k : kernels) (x1 x2 : point) :
  dot_symmetric dot ->
  trivial dot k x1 x2 = trivial dot k x2 x1.
Proof.
  intros Hdot. unfold trivial, np_dot.
  destruct (decide (length x1 = length x2)) as [E|E].
  - rewrite decide_True by (symmetry; exact E). rewrite (Hdot x1 x2). reflexivity.
  - rewrite decide_False by (intros E'; apply E; symmetry; exact E'). reflexivity.
Qed.

(** X1. The three kernels are symmetric in their two points, bit for bit:
    the same value, or the same failure, in either order, whatever the
    squares [t ** 2] and [l ** 2] are.  [numpy.dot] is assumed symmetric in
    its arguments and, on an array with itself, independent of the signs of
    the entries. *)
Theorem kernels_symmetric (exp : float -> float) (pow2 : float -> option float)
    (dot : point -> point -> float) (k : kernels) (x1 x2 : point) :
  dot_symmetric dot -> dot_self_even dot ->
  squared_exp exp pow2 dot k x1 x2 = squared_exp exp pow2 dot k x2 x1 /\
  ARD_matern exp pow2 dot k x1 x2 = ARD_matern exp pow2 dot k x2 x1 /\
  trivial dot k x1 x2 = trivial dot k x2 x1.
Proof.
  intros Hsym Heven.
  destruct (squared_exp_ARD_matern_swap exp pow2 dot k x1 x2 Heven) as [H1 H2].
  split; [exact H1|]. split; [exact H2|]. apply trivial_swap. exact Hsym.
Qed.

Lemma kernels_symmetric_witness :
  squared_exp exp_step pow2_step dot_sum {| t := 3; l := 2 |} [1; 2] [4; 6]
  = squared_exp exp_step pow2_step dot_sum {| t := 3; l := 2 |} [4; 6] [1; 2] /\
  ARD_matern exp_step pow2_step dot_sum {| t := 3; l := 2 |} [1; 2] [4; 6]
  = ARD_matern exp_step pow2_step dot_sum {| t := 3; l := 2 |} [4; 6] [1; 2] /\
  trivial dot_sum {| t := 3; l := 2 |} [1; 2] [4; 6]
  = trivial dot_sum {| t := 3; l := 2 |} [4; 6] [1; 2].
Proof.
  apply (kernels_symmetric exp_step pow2_step dot_sum {| t := 3; l := 2 |}
           [1; 2] [4; 6]).
  - exact dot_sum_symmetric.
  - exact dot_sum_self_even.
Defined.

(** ** More on the covariance builder *)

(** X2. On two point sets of one number [N] of points, each a matrix of one
    point per row or a bare vector that is one point, fast mode returns the
    [N] values of the kernel on the aligned pairs: the diagonal of the matrix
    of full mode. *)
Theorem covariance_fast_is_diagonal (kernel : point -> point -> option float)
    (A B : ndarray) :
  length (spec_points A) = length (spec_points B) ->
  (forall a b, a ∈ spec_points A -> b ∈ spec_points B -> is_Some (kernel a b)) ->
  exists v M,
    covariance kernel A B true = Some (Arr1 v) /\
    length v = length (spec_points A) /\
    (forall i a b, spec_points A !! i = Some a -> spec_points B !! i = Some b ->
                   v !! i = kernel a b) /\
    covariance kernel A B false = Some (Arr2 M) /\
    (forall i, (i < length (spec_points A))%nat ->
               v !! i = (M !! i) ≫= (fun r => r !! i)).
Proof.
  rewrite <- (as_rows_spec_points A), <- (as_rows_spec_points B).
  intros Hlen Hk'.
  pose proof (returns_at_of_elem _ _ _ Hk') as Hk.
  unfold covariance.
  rewrite covariance_full_rows by exact Hk.
  rewrite covariance_fast_rows by (try lia; intros; apply Hk).
  rewrite Hlen, Nat.sub_diag. cbn [replicate]. rewrite app_nil_r.
  eexists _, _. split; [reflexivity|]. split; [|split; [|split; [reflexivity|]]].
  - rewrite length_map, length_seq. reflexivity.
  - intros i a b Ha Hb.
    rewrite list_lookup_fmap, (lookup_seq_lt 0 _ i (lookup_lt_Some _ _ _ Hb)).
    cbn [fmap option_fmap option_map Nat.add].
    symmetry. apply kval_eq; [exact Ha | exact Hb | apply Hk].
  - intros i Hi. assert (Hi' : (i < length (as_rows B))%nat) by lia.
    rewrite !list_lookup_fmap, !(lookup_seq_lt 0 _ i Hi').
    cbn [fmap option_fmap option_map mbind option_bind Nat.add].
    rewrite list_lookup_fmap, (lookup_seq_lt 0 _ i Hi'). reflexivity.
Qed.

Lemma covariance_fast_is_diagonal_witness :
  exists v M,
    covariance (trivial dot_sum {| t := 2; l := 1 |}) (Arr2 [[1; 0]; [0; 1]])
      (Arr2 [[3; 4]; [5; 6]]) true = Some (Arr1 v) /\
    length v = 2%nat /\
    (forall i a b, [[1; 0]; [0; 1]] !! i = Some a -> [[3; 4]; [5; 6]] !! i = Some b ->
                   v !! i = trivial dot_sum {| t := 2; l := 1 |} a b) /\
    covariance (trivial dot_sum {| t := 2; l := 1 |}) (Arr2 [[1; 0]; [0; 1]])
      (Arr2 [[3; 4]; [5; 6]]) false = Some (Arr2 M) /\
    (forall i, (i < 2)%nat -> v !! i = (M !! i) ≫= (fun r => r !! i)).
Proof.
  apply (covariance_fast_is_diagonal (trivial dot_sum {| t := 2; l := 1 |})
           (Arr2 [[1; 0]; [0; 1]]) (Arr2 [[3; 4]; [5; 6]])).
  - reflexivity.
  - apply (trivial_returns_on _ _ _ _ 2%nat); repeat constructor.
Defined.

Lemma seq_split_at (n i : nat) :
  (i < n)%nat -> seq 0 n = seq 0 i ++ i :: seq (S i) (n - S i).
Proof.
  intros Hi. replace n with (i + S (n - S i))%nat at 1 by lia.
  rewrite seq_app. reflexivity.
Qed.

Lemma full_inner_fails (kernel : point -> point -> option float)
    (X1 X2 : list point) (i j : nat) (a b : point) (st : option (list (list float))) :
  X1 !! i = Some a -> X2 !! j = Some b -> kernel a b = None ->
  foldl (full_body kernel X1 X2 i) st (seq 0 (length X2)) = None.
Proof.
  intros Ha Hb Hk.
  rewrite (seq_split_at _ j (lookup_lt_Some _ _ _ Hb)), foldl_app.
  cbn [foldl].
  assert (Hstep : forall s, full_body kernel X1 X2 i s j = None).
  { intros [M|]; [|reflexivity]. unfold full_body. cbn [mbind option_bind].
    rewrite Ha, Hb. cbn [mbind option_bind]. rewrite Hk. reflexivity. }
  rewrite Hstep. apply foldl_None. intros r. reflexivity.
Qed.

(** X3. A kernel that raises on one pair of rows makes [covariance] raise:
    full mode for any pair, fast mode for an aligned pair.  No partial
    result is returned. *)
Theorem covariance_kernel_failure (kernel : point -> point -> option float)
    (A B : ndarray) (i j : nat) (a b : point) :
  as_rows A !! i = Some a -> as_rows B !! j = Some b -> kernel a b = None ->
  covariance kernel A B false = None /\
  (i = j -> covariance kernel A B true = None).
Proof.
  intros Ha Hb Hk. unfold covariance. split.
  - unfold covariance_full.
    rewrite (seq_split_at _ i (lookup_lt_Some _ _ _ Ha)), foldl_app.
    cbn [foldl]. rewrite (full_inner_fails kernel _ _ i j a b _ Ha Hb Hk).
    rewrite foldl_None; [reflexivity|].
    intros r. apply foldl_None. intros r'. reflexivity.
  - intros ->. unfold covariance_fast.
    rewrite (seq_split_at _ j (lookup_lt_Some _ _ _ Hb)), foldl_app.
    cbn [foldl].
    assert (Hstep : forall s, fast_body kernel (as_rows A) (as_rows B) s j = None).
    { intros [M|]; [|reflexivity]. unfold fast_body. cbn [mbind option_bind].
      rewrite Ha, Hb. cbn [mbind option_bind]. rewrite Hk. reflexivity. }
    rewrite Hstep, foldl_None; [reflexivity|]. intros r. reflexivity.
Qed.

Lemma covariance_kernel_failure_witness :
  covariance (trivial dot_sum {| t := 2; l := 1 |}) (Arr2 [[1; 0]]) (Arr2 [[1; 2; 3]]) false
  = None /\
  (0%nat = 0%nat ->
   covariance (trivial dot_sum {| t := 2; l := 1 |}) (Arr2 [[1; 0]]) (Arr2 [[1; 2; 3]]) true
   = None).
Proof.
  apply (covariance_kernel_failure (trivial dot_sum {| t := 2; l := 1 |})
           (Arr2 [[1; 0]]) (Arr2 [[1; 2; 3]]) 0 0 [1; 0] [1; 2; 3]);
    reflexivity.
Defined.

Lemma full_rows_entry (kernel : point -> point -> option float)
    (X1 X2 : list point) (i j : nat) :
  (i < length X1)%nat -> (j < length X2)%nat ->
  (map (fun i => map (kval kernel X1 X2 i) (seq 0 (length X2))) (seq 0 (length X1)) !! i)
    ≫= (fun r => r !! j)
  = Some (kval kernel X1 X2 i j).
Proof.
  intros Hi Hj.
  rewrite list_lookup_fmap, (lookup_seq_lt 0 _ i Hi).
  cbn [fmap option_fmap option_map mbind option_bind Nat.add].
  rewrite list_lookup_fmap, (lookup_seq_lt 0 _ j Hj). reflexivity.
Qed.

Lemma kval_swap (kernel : point -> point -> option float) (X1 X2 : list point)
    (i j : nat) :
  (forall a b, kernel a b = kernel b a) ->
  kval kernel X1 X2 i j = kval kernel X2 X1 j i.
Proof.
  intros Hsym. unfold kval.
  destruct (X1 !! i) as [a|], (X2 !! j) as [b|]; cbn; try reflexivity.
  rewrite Hsym. reflexivity.
Qed.

(** X4. For a kernel that is symmetric in its arguments, the full covariance
    of [(B, A)] is the transpose of the full covariance of [(A, B)]. *)
Theorem covariance_transpose (kernel : point -> point -> option float)
    (A B : ndarray) :
  (forall a b, kernel a b = kernel b a) ->
  (forall a b, a ∈ as_rows A -> b ∈ as_rows B -> is_Some (kernel a b)) ->
  exists M M',
    covariance kernel A B false = Some (Arr2 M) /\
    covariance kernel B A false = Some (Arr2 M') /\
    (forall i j, (i < n_points A)%nat -> (j < n_points B)%nat ->
       is_Some ((M !! i) ≫= (fun r => r !! j)) /\
       (M !! i) ≫= (fun r => r !! j) = (M' !! j) ≫= (fun r => r !! i)).
Proof.
  intros Hsym Hk'. unfold n_points.
  assert (Hk'' : forall b a, b ∈ as_rows B -> a ∈ as_rows A -> is_Some (kernel b a)).
  { intros b a Hb Ha. rewrite Hsym. apply Hk'; assumption. }
  pose proof (returns_at_of_elem _ _ _ Hk') as Hk.
  pose proof (returns_at_of_elem _ _ _ Hk'') as Hkt.
  unfold covariance. rewrite !covariance_full_rows by assumption.
  eexists _, _. split; [reflexivity|]. split; [reflexivity|].
  intros i j Hi Hj. rewrite !full_rows_entry by assumption.
  split; [eexists; reflexivity|].
  rewrite (kval_swap kernel _ _ i j Hsym). reflexivity.
Qed.

Lemma covariance_transpose_witness :
  exists M M',
    covariance (trivial dot_sum {| t := 2; l := 1 |}) (Arr2 [[1; 0]; [0; 1]]) (Arr1 [3; 4]) false
    = Some (Arr2 M) /\
    covariance (trivial dot_sum {| t := 2; l := 1 |}) (Arr1 [3; 4]) (Arr2 [[1; 0]; [0; 1]]) false
    = Some (Arr2 M') /\
    (forall i j, (i < n_points (Arr2 [[1; 0]; [0; 1]]%float))%nat ->
                 (j < n_points (Arr1 [3; 4]%float))%nat ->
       is_Some ((M !! i) ≫= (fun r => r !! j)) /\
       (M !! i) ≫= (fun r => r !! j) = (M' !! j) ≫= (fun r => r !! i)).
Proof.
  apply (covariance_transpose (trivial dot_sum {| t := 2; l := 1 |})
           (Arr2 [[1; 0]; [0; 1]]) (Arr1 [3; 4])).
  - intros a b. apply trivial_swap, dot_sum_symmetric.
  - apply (trivial_returns_on _ _ _ _ 2%nat); repeat constructor.
Defined.

(** X5. Under each of the three kernels the full covariance of a point set
    with itself is a symmetric matrix, when the kernel returns on its rows.
    [numpy.dot] is assumed symmetric in its arguments and, on an array with
    itself, independent of the signs of the entries. *)
Theorem covariance_self_symmetric (exp : float -> float) (pow2 : float -> option float)
    (dot : point -> point -> float) (k : kernels)
    (kernel : point -> point -> option float) (A : ndarray) :
  dot_symmetric dot -> dot_self_even dot ->
  kernel = squared_exp exp pow2 dot k \/ kernel = ARD_matern exp pow2 dot k \/
  kernel = trivial dot k ->
  (forall a b, a ∈ as_rows A -> b ∈ as_rows A -> is_Some (kernel a b)) ->
  exists M,
    covariance kernel A A false = Some (Arr2 M) /\
    (forall i j, (i < n_points A)%nat -> (j < n_points A)%nat ->
       is_Some ((M !! i) ≫= (fun r => r !! j)) /\
       (M !! i) ≫= (fun r => r !! j) = (M !! j) ≫= (fun r => r !! i)).
Proof.
  intros Hdsym Heven Hker Hk'. unfold n_points.
  assert (Hsym : forall a b, kernel a b = kernel b a).
  { intros a b. destruct Hker as [-> | [-> | ->]].
    - apply squared_exp_ARD_matern_swap. exact Heven.
    - apply squared_exp_ARD_matern_swap. exact Heven.
    - apply trivial_swap. exact Hdsym. }
  pose proof (returns_at_of_elem _ _ _ Hk') as Hk.
  unfold covariance. rewrite covariance_full_rows by assumption.
  eexists. split; [reflexivity|].
  intros i j Hi Hj. rewrite !full_rows_entry by assumption.
  split; [eexists; reflexivity|].
  rewrite (kval_swap kernel _ _ i j Hsym). reflexivity.
Qed.

Lemma covariance_self_symmetric_witness :
  exists M,
    covariance (trivial dot_sum {| t := 2; l := 1 |}) (Arr2 [[1; 2]; [3; 4]])
      (Arr2 [[1; 2]; [3; 4]]) false = Some (Arr2 M) /\
    (forall i j, (i < n_points (Arr2 [[1; 2]; [3; 4]]%float))%nat ->
                 (j < n_points (Arr2 [[1; 2]; [3; 4]]%float))%nat ->
       is_Some ((M !! i) ≫= (fun r => r !! j)) /\
       (M !! i) ≫= (fun r => r !! j) = (M !! j) ≫= (fun r => r !! i)).
Proof.
  apply (covariance_self_symmetric exp_step pow2_step dot_sum {| t := 2; l := 1 |}
           (trivial dot_sum {| t := 2; l := 1 |}) (Arr2 [[1; 2]; [3; 4]])).
  - exact dot_sum_symmetric.
  - exact dot_sum_self_even.
  - right. right. reflexivity.
  - apply (trivial_returns_on _ _ _ _ 2%nat); repeat constructor.
Defined.

(** ** Sample covariance *)

Lemma sample_loop (kernel : point -> point -> option float) (rows : list point)
    (sample : point) (m : nat) :
  (m <= length rows)%nat ->
  (forall a, a ∈ rows -> is_Some (kernel a sample)) ->
  foldl (sample_body kernel (Arr2 rows) sample) (Some (np_zeros (length rows))) (seq 0 m)
  = Some (map (fun i => kval kernel rows [sample] i 0) (seq 0 m)
          ++ replicate (length rows - m) 0).
Proof.
  intros Hm Hk. induction m as [|m IH].
  - cbn [seq foldl map app]. rewrite Nat.sub_0_r. reflexivity.
  - rewrite seq_S, foldl_app, IH by lia.
    cbn [foldl Nat.add]. unfold sample_body. cbn [mbind option_bind np_row].
    destruct (lookup_lt_is_Some_2 rows m ltac:(lia)) as [a Ha].
    rewrite Ha. cbn [mbind option_bind].
    destruct (Hk a (list_elem_of_lookup_2 _ _ _ Ha)) as [k Hka].
    rewrite Hka. cbn [mbind option_bind].
    rewrite setitem_lt
      by (rewrite length_app, length_map, length_seq, length_replicate; lia).
    replace (length rows - m)%nat with (S (length rows - S m)) by lia.
    assert (Hkv : k = kval kernel rows [sample] m 0).
    { unfold kval. rewrite Ha. cbn. rewrite Hka. reflexivity. }
    rewrite Hkv, (insert_frontier (fun i => kval kernel rows [sample] i 0)), seq_S.
    reflexivity.
Qed.

Lemma sample_covariance_rows (kernel : point -> point -> option float)
    (rows : list point) (sample : point) :
  (forall a, a ∈ rows -> is_Some (kernel a sample)) ->
  sample_covariance kernel (Arr2 rows) sample
  = Some (map (fun i => kval kernel rows [sample] i 0) (seq 0 (length rows))).
Proof.
  intros Hk. unfold sample_covariance. cbn [np_len].
  rewrite sample_loop by (try lia; exact Hk).
  rewrite Nat.sub_diag. cbn [replicate mbind option_bind]. rewrite app_nil_r.
  unfold np_reshape1. rewrite decide_True by (rewrite length_map, length_seq; reflexivity).
  reflexivity.
Qed.

(** X6. [sample_covariance] on a set of [N] rows returns [N] entries, entry
    [i] being the kernel on row [i] and the sample. *)
Theorem sample_covariance_entries (kernel : point -> point -> option float)
    (rows : list point) (sample : point) :
  (forall a, a ∈ rows -> is_Some (kernel a sample)) ->
  exists v,
    sample_covariance kernel (Arr2 rows) sample = Some v /\
    length v = length rows /\
    forall i a, rows !! i = Some a -> v !! i = kernel a sample.
Proof.
  intros Hk. rewrite sample_covariance_rows by exact Hk.
  eexists. split; [reflexivity|]. split.
  - rewrite length_map, length_seq. reflexivity.
  - intros i a Ha.
    rewrite list_lookup_fmap, (lookup_seq_lt 0 _ i (lookup_lt_Some _ _ _ Ha)).
    cbn [fmap option_fmap option_map Nat.add].
    destruct (Hk a (list_elem_of_lookup_2 _ _ _ Ha)) as [k Hka].
    unfold kval. rewrite Ha. cbn. rewrite Hka. reflexivity.
Qed.

Lemma sample_covariance_entries_witness :
  exists v,
    sample_covariance (trivial dot_sum {| t := 2; l := 1 |}) (Arr2 [[1; 0]; [0; 1]; [1; 1]]) [3; 4]
    = Some v /\
    length v = length [[1; 0]; [0; 1]; [1; 1]] /\
    forall i a, [[1; 0]; [0; 1]; [1; 1]] !! i = Some a ->
                v !! i = trivial dot_sum {| t := 2; l := 1 |} a [3; 4].
Proof.
  apply (sample_covariance_entries (trivial dot_sum {| t := 2; l := 1 |})
           [[1; 0]; [0; 1]; [1; 1]] [3; 4]).
  intros a Ha.
  apply (trivial_returns_on _ _ [[1; 0]; [0; 1]; [1; 1]] [[3; 4]] 2%nat);
    [repeat constructor | repeat constructor | exact Ha | constructor].
Defined.

(** X7. The full covariance of a point set against one bare point is the
    sample covariance, written as a column. *)
Theorem sample_covariance_is_covariance_column
    (kernel : point -> point -> option float) (rows : list point) (sample : point) :
  (forall a, a ∈ rows -> is_Some (kernel a sample)) ->
  exists v,
    sample_covariance kernel (Arr2 rows) sample = Some v /\
    covariance kernel (Arr2 rows) (Arr1 sample) false
    = Some (Arr2 (map (fun k => [k]) v)).
Proof.
  intros Hk. rewrite sample_covariance_rows by exact Hk.
  eexists. split; [reflexivity|].
  unfold covariance. cbn [as_rows].
  rewrite covariance_full_rows.
  - cbn [fmap option_fmap option_map length seq map]. rewrite map_map. reflexivity.
  - intros i j a b Ha Hb. apply list_elem_of_lookup_2 in Ha.
    apply list_elem_of_lookup_2 in Hb. apply list_elem_of_singleton in Hb.
    subst b. apply Hk. exact Ha.
Qed.

Lemma sample_covariance_is_covariance_column_witness :
  exists v,
    sample_covariance (trivial dot_sum {| t := 2; l := 1 |}) (Arr2 [[1; 0]; [0; 1]; [1; 1]]) [3; 4]
    = Some v /\
    covariance (trivial dot_sum {| t := 2; l := 1 |}) (Arr2 [[1; 0]; [0; 1]; [1; 1]])
      (Arr1 [3; 4]) false
    = Some (Arr2 (map (fun k => [k]) v)).
Proof.
  apply (sample_covariance_is_covariance_column (trivial dot_sum {| t := 2; l := 1 |})
           [[1; 0]; [0; 1]; [1; 1]] [3; 4]).
  intros a Ha.
  apply (trivial_returns_on _ _ [[1; 0]; [0; 1]; [1; 1]] [[3; 4]] 2%nat);
    [repeat constructor | repeat constructor | exact Ha | constructor].
Defined.

(** X8. [sample_covariance] has no reshaping prologue: on a one-dimensional
    array with entries it raises on the first row, where [covariance] takes
    the array as one point. *)
Theorem sample_covariance_bare_vector (kernel : point -> point -> option float)
    (x sample : point) (k : float) :
  x <> [] -> kernel x sample = Some k ->
  sample_covariance kernel (Arr1 x) sample = None /\
  covariance kernel (Arr1 x) (Arr1 sample) false = Some (Arr2 [[k]]).
Proof.
  intros Hx Hk. split.
  - unfold sample_covariance. cbn [np_len].
    destruct x as [|c x]; [congruence|].
    cbn [length seq foldl]. unfold sample_body at 2. cbn [mbind option_bind np_row].
    rewrite foldl_None; [reflexivity|]. intros r. reflexivity.
  - unfold covariance, covariance_full, full_body, setitem2. cbn. rewrite Hk. reflexivity.
Qed.

Lemma sample_covariance_bare_vector_witness :
  sample_covariance (trivial dot_sum {| t := 2; l := 1 |}) (Arr1 [1; 0]) [3; 4] = None /\
  covariance (trivial dot_sum {| t := 2; l := 1 |}) (Arr1 [1; 0]) (Arr1 [3; 4]) false
  = Some (Arr2 [[6]]).
Proof.
  apply (sample_covariance_bare_vector (trivial dot_sum {| t := 2; l := 1 |}) [1; 0] [3; 4] 6).
  - discriminate.
  - reflexivity.
Defined.

(** ** Bulk and single-point acquisition *)

Lemma full_UCB_eval (self : acquisition) (mean var : list float) :
  length mean = length var ->
  full_UCB self mean var
  = Some (zip_with (fun m v => m + kappa self * sqrt v) mean var).
Proof.
  intros Hlen. unfold full_UCB, np_reshape1, np_binop.
  rewrite decide_True by reflexivity. cbn [mbind option_bind].
  rewrite decide_True by (rewrite !length_map; exact Hlen).
  cbn [mbind option_bind].
  rewrite decide_True by (rewrite length_zip_with, !length_map; lia).
  f_equal. revert var Hlen. induction mean as [|m mean IH]; intros [|v var] Hlen;
    try discriminate; [reflexivity|].
  cbn [map zip_with]. f_equal. apply IH. injection Hlen as Hlen. exact Hlen.
Qed.

(** X9. On arrays of one length [full_UCB] returns, entry by entry, what
    [UCB] returns for that mean and variance when the variance is not below
    zero; where the variance is below zero [UCB] raises and [full_UCB]
    holds NaN. *)
Theorem full_UCB_agrees_with_UCB (self : acquisition) (mean var : list float)
    (gp : gaussian_process) (x : point) (ymax : float) (i : nat) (m v : float) :
  length mean = length var ->
  mean !! i = Some m -> var !! i = Some v ->
  sample_predict gp x = (m, v) ->
  exists r,
    full_UCB self mean var = Some r /\ length r = length mean /\
    ((v <? 0) = false -> r !! i = UCB self x gp ymax) /\
    ((v <? 0) = true -> UCB self x gp ymax = None /\ r !! i = Some nan).
Proof.
  intros Hlen Hm Hv Hgp. eexists. split; [apply full_UCB_eval; exact Hlen|].
  split; [rewrite length_zip_with; lia|].
  rewrite lookup_zip_with, Hm, Hv. cbn [mbind option_bind].
  unfold UCB, math_sqrt. rewrite Hgp. split; intros Hneg; rewrite Hneg.
  - reflexivity.
  - split; [reflexivity|].
    rewrite (sqrt_neg_nan v Hneg), nan_mul_r, nan_add_r. reflexivity.
Qed.

Lemma full_UCB_agrees_with_UCB_witness :
  exists r,
    full_UCB {| kappa := 2 |} [1; 2] [4; 9] = Some r /\
    length r = length [1; 2] /\
    ((4 <? 0) = false ->
     r !! 0%nat = UCB {| kappa := 2 |} [0] {| sample_predict := fun _ => (1, 4) |} 7) /\
    ((4 <? 0) = true ->
     UCB {| kappa := 2 |} [0] {| sample_predict := fun _ => (1, 4) |} 7 = None /\
     r !! 0%nat = Some nan).
Proof.
  apply (full_UCB_agrees_with_UCB {| kappa := 2 |} [1; 2] [4; 9]
           {| sample_predict := fun _ => (1, 4) |} [0] 7 0 1 4);
    reflexivity.
Defined.

(** X10. [full_UCB] ends with a reshape to the length of the mean: a variance of
    one entry is spread over the means, but one mean against several
    variances raises. *)
Theorem full_UCB_broadcast (self : acquisition) (m v : float) (mean var : list float) :
  (2 <= length mean)%nat -> (2 <= length var)%nat ->
  full_UCB self mean [v] = Some (map (fun m' => m' + kappa self * sqrt v) mean) /\
  full_UCB self [m] var = None.
Proof.
  intros Hm Hv. unfold full_UCB, np_reshape1, np_binop.
  rewrite !decide_True by reflexivity. cbn [mbind option_bind map length].
  split.
  - rewrite decide_False by lia.
    destruct mean as [|m1 [|m2 mean]]; cbn [length] in Hm; try lia.
    cbn [mbind option_bind].
    rewrite decide_True by (rewrite length_map; reflexivity). reflexivity.
  - rewrite decide_False by (rewrite !length_map; lia).
    cbn [mbind option_bind].
    rewrite decide_False by (rewrite !length_map; lia). reflexivity.
Qed.

Lemma full_UCB_broadcast_witness :
  full_UCB {| kappa := 2 |} [1; 2] [4]
  = Some (map (fun m' => m' + kappa {| kappa := 2 |} * sqrt 4) [1; 2]) /\
  full_UCB {| kappa := 2 |} [1] [4; 9] = None.
Proof.
  apply (full_UCB_broadcast {| kappa := 2 |} 1 4 [1; 2] [4; 9]); cbn; lia.
Defined.

(** X11. Where the variance is a number not below zero, the entry of
    [full_EI] is what [EI] returns for that mean and variance. *)
Theorem full_EI_agrees_with_EI (norm_cdf norm_pdf : float -> float)
    (ymax : float) (mean var : list float)
    (gp : gaussian_process) (x : point) (i : nat) (m v : float) :
  length mean = length var ->
  mean !! i = Some m -> var !! i = Some v ->
  sample_predict gp x = (m, v) ->
  (0 <=? v) = true ->
  exists ei,
    full_EI norm_cdf norm_pdf ymax mean var = Some ei /\
    ei !! i = EI norm_cdf norm_pdf x gp ymax.
Proof.
  intros Hlen Hm Hv Hgp Hge.
  eexists. split; [apply full_EI_masked; exact Hlen|].
  rewrite lookup_zip_with, Hm, list_lookup_fmap, Hv. cbn [mbind option_bind fmap option_fmap option_map].
  unfold EI, ei_masked. rewrite Hgp.
  destruct (leb_zero_cases v Hge) as [Hz|Hp].
  - rewrite Hz. destruct (is_zero_view v Hz) as [-> | ->]; reflexivity.
  - destruct (ltb_zero_facts v Hp) as (Hnz & Hnn & _).
    rewrite Hnz, (sqrt_pos v Hp). unfold math_sqrt. rewrite Hnn. reflexivity.
Qed.

Lemma full_EI_agrees_with_EI_witness :
  exists ei,
    full_EI cdf_step pdf_step 4 [5; 5] [0; 4] = Some ei /\
    ei !! 1%nat = EI cdf_step pdf_step [0] {| sample_predict := fun _ => (5, 4) |} 4.
Proof.
  apply (full_EI_agrees_with_EI cdf_step pdf_step 4 [5; 5] [0; 4]
           {| sample_predict := fun _ => (5, 4) |} [0] 1 5 4);
    reflexivity.
Defined.

(** X12. Where the variance is not a valid one the two differ: [full_EI]
    holds [0]; [EI] raises on a variance below zero and returns NaN on a NaN
    variance. *)
Theorem full_EI_invalid_variance (norm_cdf norm_pdf : float -> float)
    (ymax : float) (mean var : list float)
    (gp : gaussian_process) (x : point) (i : nat) (m v : float) :
  length mean = length var ->
  mean !! i = Some m -> var !! i = Some v ->
  sample_predict gp x = (m, v) ->
  exists ei,
    full_EI norm_cdf norm_pdf ymax mean var = Some ei /\
    ((v <? 0) = true ->
       ei !! i = Some 0 /\ EI norm_cdf norm_pdf x gp ymax = None) /\
    (is_nan v = true ->
       ei !! i = Some 0 /\ EI norm_cdf norm_pdf x gp ymax = Some nan).
Proof.
  intros Hlen Hm Hv Hgp.
  eexists. split; [apply full_EI_masked; exact Hlen|].
  rewrite lookup_zip_with, Hm, list_lookup_fmap, Hv.
  cbn [mbind option_bind fmap option_fmap option_map].
  unfold EI, ei_masked, math_sqrt. rewrite Hgp. split.
  - intros Hneg. rewrite (sqrt_neg_nan v Hneg), Hneg.
    assert (Hnz : (v =? 0) = false).
    { destruct (v =? 0) eqn:E; [|reflexivity].
      rewrite (eqb_zero_not_neg v E) in Hneg. discriminate. }
    rewrite Hnz. split; reflexivity.
  - intros Hnan. rewrite (sqrt_nan_of_nan v Hnan).
    assert (Hnz : (v =? 0) = false).
    { destruct (v =? 0) eqn:E; [|reflexivity].
      destruct (is_zero_view v E) as [-> | ->]; discriminate. }
    assert (Hnn : (v <? 0) = false).
    { destruct (v <? 0) eqn:E; [|reflexivity].
      assert (Hq := sqrt_neg_nan v E).
      revert Hnan E. unfold is_nan. rewrite FloatAxioms.eqb_spec, ltb_spec.
      destruct (Prim2SF v) as [s|s| |s mm e]; try discriminate.
      - destruct s; discriminate.
      - unfold SFeqb. rewrite SFcompare_refl_finite. discriminate. }
    rewrite Hnz, Hnn. cbn [mbind option_bind].
    split; [reflexivity|].
    rewrite div_nan_r, nan_mul_l, nan_add_r. reflexivity.
Qed.

Lemma full_EI_invalid_variance_witness :
  exists ei,
    full_EI cdf_step pdf_step 4 [5; 5] [-1; nan] = Some ei /\
    ((-1 <? 0) = true ->
     ei !! 0%nat = Some 0 /\
     EI cdf_step pdf_step [0] {| sample_predict := fun _ => (5, -1) |} 4 = None) /\
    (is_nan (-1) = true ->
     ei !! 0%nat = Some 0 /\
     EI cdf_step pdf_step [0] {| sample_predict := fun _ => (5, -1) |} 4 = Some nan).
Proof.
  apply (full_EI_invalid_variance cdf_step pdf_step 4 [5; 5] [-1; nan]
           {| sample_predict := fun _ => (5, -1) |} [0] 0 5 (-1));
    reflexivity.
Defined.

(** X13. Where the variance is neither zero nor below zero, the entry of
    [full_PoI] is what [PoI] returns; at variance zero [PoI] returns [1]
    and [full_PoI] the normal CDF of a quotient by zero. *)
Theorem full_PoI_agrees_with_PoI (norm_cdf : float -> float)
    (ymax : float) (mean var : list float)
    (gp : gaussian_process) (x : point) (i : nat) (m v : float) :
  length mean = length var ->
  mean !! i = Some m -> var !! i = Some v ->
  sample_predict gp x = (m, v) ->
  (v <? 0) = false ->
  exists p,
    full_PoI norm_cdf ymax mean var = Some p /\
    ((v =? 0) = false -> p !! i = PoI norm_cdf x gp ymax) /\
    ((v =? 0) = true ->
       PoI norm_cdf x gp ymax = Some 1 /\
       p !! i = Some (norm_cdf ((m - ymax) / sqrt v))).
Proof.
  intros Hlen Hm Hv Hgp Hnn.
  eexists. split; [apply full_PoI_eval; exact Hlen|].
  rewrite lookup_zip_with, Hm, Hv. cbn [mbind option_bind].
  unfold PoI, math_sqrt. rewrite Hgp, Hnn. split; intros Hz; rewrite Hz.
  - reflexivity.
  - split; reflexivity.
Qed.

Lemma full_PoI_agrees_with_PoI_witness :
  exists p,
    full_PoI cdf_step 4 [5; 5] [0; 4] = Some p /\
    ((4 =? 0) = false ->
     p !! 1%nat = PoI cdf_step [0] {| sample_predict := fun _ => (5, 4) |} 4) /\
    ((4 =? 0) = true ->
     PoI cdf_step [0] {| sample_predict := fun _ => (5, 4) |} 4 = Some 1 /\
     p !! 1%nat = Some (cdf_step ((5 - 4) / sqrt 4))).
Proof.
  apply (full_PoI_agrees_with_PoI cdf_step 4 [5; 5] [0; 4]
           {| sample_predict := fun _ => (5, 4) |} [0] 1 5 4);
    reflexivity.
Defined.

(** X14. At variance zero [UCB] returns a number equal to the mean, for a
    finite [kappa] and a mean that is not NaN. *)
Theorem UCB_zero_variance (self : acquisition) (gp : gaussian_process)
    (x : point) (ymax m v : float) :
  sample_predict gp x = (m, v) ->
  (v =? 0) = true -> is_finite (kappa self) = true -> is_nan m = false ->
  exists r, UCB self x gp ymax = Some r /\ (r =? m) = true.
Proof.
  intros Hgp Hz Hk Hm. unfold UCB, math_sqrt. rewrite Hgp.
  rewrite (eqb_zero_not_neg v Hz). cbn [mbind option_bind].
  eexists. split; [reflexivity|].
  apply add_zero_eqb; [exact Hm|].
  apply mul_finite_zero; [exact Hk|].
  destruct (is_zero_view v Hz) as [-> | ->]; reflexivity.
Qed.

Lemma UCB_zero_variance_witness :
  exists r,
    UCB {| kappa := 2 |} [0] {| sample_predict := fun _ => (3, 0) |} 7 = Some r /\
    (r =? 3) = true.
Proof.
  apply (UCB_zero_variance {| kappa := 2 |} {| sample_predict := fun _ => (3, 0) |}
           [0] 7 3 0);
    reflexivity.
Defined.

(** ** Progress reports *)

Lemma split_time_sub_second (elapsed : Z) :
  (0 <= elapsed < 1000000)%Z -> split_time elapsed = (0%Z, elapsed).
Proof.
  intros H. unfold split_time.
  rewrite Z.div_small, Z.mod_small by lia. reflexivity.
Qed.

Lemma argmax_from_nan_mp (mp : float) (i0 i : nat) (l : list float) :
  is_nan mp = true -> argmax_from mp i0 i l = i0.
Proof. intros H. destruct l; cbn; [|rewrite H]; reflexivity. Qed.

Lemma argmax_from_lt (l : list float) : forall (mp : float) (i0 i : nat),
  (i0 < i)%nat -> (argmax_from mp i0 i l < i + length l)%nat.
Proof.
  induction l as [|x l IH]; intros mp i0 i H; cbn [argmax_from length]; [lia|].
  destruct (is_nan mp); [lia|].
  destruct (x <=? mp).
  - specialize (IH mp i0 (S i)). lia.
  - specialize (IH x i (S i)). lia.
Qed.

Lemma np_argmax_lt (l : list float) (k : nat) :
  np_argmax l = Some k -> (k < length l)%nat.
Proof.
  destruct l as [|x l]; [discriminate|]. cbn. intros [= <-].
  pose proof (argmax_from_lt l x 0 1). lia.
Qed.

(** The scan keeps the first largest entry seen so far. *)
Lemma argmax_from_maximal (l : list float) : forall (pre : list float) (mp : float) (i0 : nat),
  Forall (fun y => is_nan y = false) (pre ++ l) ->
  pre !! i0 = Some mp ->
  (forall j y, pre !! j = Some y -> (y <=? mp) = true) ->
  (forall j y, (j < i0)%nat -> pre !! j = Some y -> (mp <=? y) = false) ->
  exists best,
    (pre ++ l) !! argmax_from mp i0 (length pre) l = Some best /\
    (forall j y, (pre ++ l) !! j = Some y -> (y <=? best) = true) /\
    (forall j y, (j < argmax_from mp i0 (length pre) l)%nat ->
                 (pre ++ l) !! j = Some y -> (best <=? y) = false).
Proof.
  induction l as [|x l IH]; intros pre mp i0 Hn Hmp Hle Hlt.
  - rewrite app_nil_r. cbn. exists mp. auto.
  - assert (Hnmp : is_nan mp = false).
    { rewrite Forall_forall in Hn. apply Hn.
      apply elem_of_app. left. eapply list_elem_of_lookup_2. exact Hmp. }
    assert (Hnx : is_nan x = false).
    { rewrite Forall_forall in Hn. apply Hn.
      apply elem_of_app. right. left. }
    assert (Hnpre : forall j y, pre !! j = Some y -> is_nan y = false).
    { intros j y Hy. rewrite Forall_forall in Hn. apply Hn.
      apply elem_of_app. left. eapply list_elem_of_lookup_2. exact Hy. }
    cbn [argmax_from]. rewrite Hnmp.
    replace (pre ++ x :: l) with ((pre ++ [x]) ++ l) in * by (rewrite <- app_assoc; reflexivity).
    replace (S (length pre)) with (length (pre ++ [x])) by (rewrite length_app; cbn; lia).
    destruct (x <=? mp) eqn:Hx.
    + apply IH; [exact Hn| | |].
      * rewrite lookup_app_l; [exact Hmp|]. eapply lookup_lt_Some. exact Hmp.
      * intros j y Hy. apply lookup_app_Some in Hy as [Hy|[_ Hy]]; [eauto|].
        apply list_lookup_singleton_Some in Hy as [_ <-]. exact Hx.
      * intros j y Hj Hy. apply lookup_app_Some in Hy as [Hy|[Hge _]]; [eauto|].
        apply lookup_lt_Some in Hmp. lia.
    + assert (Hmx : (mp <=? x) = true) by (apply leb_total; assumption).
      apply IH; [exact Hn| | |].
      * rewrite lookup_app_r by lia. rewrite Nat.sub_diag. reflexivity.
      * intros j y Hy. apply lookup_app_Some in Hy as [Hy|[_ Hy]].
        -- apply (leb_trans y mp x); eauto.
        -- apply list_lookup_singleton_Some in Hy as [_ <-]. apply leb_refl. exact Hnx.
      * intros j y Hj Hy. apply lookup_app_Some in Hy as [Hy|[Hge _]]; [|lia].
        destruct (x <=? y) eqn:Hxy; [|reflexivity].
        rewrite (leb_trans x y mp) in Hx; eauto. 
Qed.

Lemma np_argmax_maximal (l : list float) :
  l <> [] -> Forall (fun y => is_nan y = false) l ->
  exists k best,
    np_argmax l = Some k /\ l !! k = Some best /\
    (forall j y, l !! j = Some y -> (y <=? best) = true) /\
    (forall j y, (j < k)%nat -> l !! j = Some y -> (best <=? y) = false).
Proof.
  intros Hne Hn. destruct l as [|x l]; [congruence|].
  destruct (argmax_from_maximal l [x] x 0) as (best & H1 & H2 & H3).
  - exact Hn.
  - reflexivity.
  - intros j y Hy. apply list_lookup_singleton_Some in Hy as [_ <-].
    apply leb_refl. inversion Hn; assumption.
  - intros; lia.
  - exists (argmax_from x 0 1 l), best. auto.
Qed.

(** The scan stops at the first NaN. *)
Lemma argmax_from_first_nan (pre : list float) : forall (mp x : float) (i0 i : nat) (rest : list float),
  is_nan mp = false -> Forall (fun y => is_nan y = false) pre -> is_nan x = true ->
  argmax_from mp i0 i (pre ++ x :: rest) = (i + length pre)%nat.
Proof.
  induction pre as [|y pre IH]; intros mp x i0 i rest Hmp Hpre Hx.
  - cbn [app argmax_from length]. rewrite Hmp, (leb_nan_l x mp Hx).
    rewrite argmax_from_nan_mp by exact Hx. lia.
  - inversion Hpre as [|? ? Hy Hpre']; subst.
    cbn [app argmax_from length]. rewrite Hmp.
    destruct (y <=? mp); rewrite IH by assumption; lia.
Qed.

Lemma np_argmax_first_nan (pre rest : list float) (x : float) :
  Forall (fun y => is_nan y = false) pre -> is_nan x = true ->
  np_argmax (pre ++ x :: rest) = Some (length pre).
Proof.
  intros Hpre Hx. destruct pre as [|y pre]; cbn [app np_argmax length].
  - rewrite argmax_from_nan_mp by exact Hx. reflexivity.
  - inversion Hpre; subst. rewrite argmax_from_first_nan by assumption.
    reflexivity.
Qed.

Lemma return_log_eval (pow10 : float -> float) (xmins ratio x : point) :
  length x = length xmins -> length ratio = length xmins ->
  return_log pow10 xmins ratio x
  = Some (zip_with mul xmins (map pow10 (zip_with mul x ratio))).
Proof.
  intros Hx Hr. unfold return_log, np_binop.
  rewrite decide_True by lia. cbn [mbind option_bind].
  rewrite decide_True by (rewrite length_map, length_zip_with; lia).
  reflexivity.
Qed.

(** X15. The time difference's [microseconds] attribute is below one
    million, so every line that reports the time taken, of [print_info] and
    of [print_log], reports 0 minutes and that number of microseconds: the
    part of the elapsed time under one second. *)
Theorem report_minutes_always_zero (pow10 : float -> float) (self : print_info_obj)
    (elapsed i : Z) (x_max xmins ratio : point) (ymax : float)
    (xtrain : list point) (ytrain : list float) :
  (0 <= elapsed < 1000000)%Z ->
  Forall (fun t => t = (0%Z, elapsed))
    (reported_times (print_info self elapsed i x_max ymax xtrain ytrain)) /\
  Forall (fun t => t = (0%Z, elapsed))
    (reported_times (print_log pow10 self elapsed i x_max xmins ratio ymax xtrain ytrain)).
Proof.
  intros He. unfold reported_times, print_info, print_log.
  rewrite (split_time_sub_second elapsed He).
  split;
    repeat match goal with
           | |- context [if ?b then _ else _] => destruct b
           | |- context [match ?o with Some _ => _ | None => _ end] => destruct o
           end;
    cbn; repeat constructor.
Qed.

Lemma report_minutes_always_zero_witness :
  Forall (fun t => t = (0%Z, 250000%Z))
    (reported_times (print_info {| lvl := 2 |} 250000 9 [0] 7 [[1; 2]; [3; 4]] [5; 7])) /\
  Forall (fun t => t = (0%Z, 250000%Z))
    (reported_times
       (print_log (fun y => y) {| lvl := 1 |} 250000 9 [0] [1; 1] [2; 2] 7
          [[1; 2]; [3; 4]] [5; 7])).
Proof.
  split.
  - apply (report_minutes_always_zero (fun y => y) {| lvl := 2 |} 250000 9 [0]
             [1; 1] [2; 2] 7 [[1; 2]; [3; 4]] [5; 7]).
    lia.
  - apply (report_minutes_always_zero (fun y => y) {| lvl := 1 |} 250000 9 [0]
             [1; 1] [2; 2] 7 [[1; 2]; [3; 4]] [5; 7]).
    lia.
Defined.

(** X16. Below level 2 [print_info] never reads the training data and
    always returns; it prints (one line) exactly at level 1 when [i+1] is a
    multiple of 10. *)
Theorem print_info_below_level_two (self : print_info_obj) (elapsed i : Z)
    (x_max x_max' : point) (ymax : float) (xtrain xtrain' : list point)
    (ytrain ytrain' : list float) :
  lvl self <> 2%Z ->
  print_info self elapsed i x_max ymax xtrain ytrain
  = print_info self elapsed i x_max' ymax xtrain' ytrain' /\
  returned (print_info self elapsed i x_max ymax xtrain ytrain) = true /\
  (length (trace (print_info self elapsed i x_max ymax xtrain ytrain)) <= 1)%nat /\
  (trace (print_info self elapsed i x_max ymax xtrain ytrain) <> []
   <-> lvl self = 1%Z /\ ((i + 1) mod 10 = 0)%Z).
Proof.
  intros H. unfold print_info.
  destruct (Z.eqb_spec (lvl self) 2); [contradiction|].
  destruct (Z.eqb_spec (lvl self) 1) as [H1|H1];
    [destruct (Z.eqb_spec ((i + 1) mod 10) 0) as [H10|H10]|];
    try destruct (split_time elapsed); cbn [trace returned length];
    (split; [reflexivity|]); (split; [reflexivity|]); (split; [lia|]);
    split; try congruence; try tauto; intros; split; assumption.
Qed.

Lemma print_info_below_level_two_witness :
  print_info {| lvl := 1 |} 250000 9 [0] 7 [[1; 2]] [5]
  = print_info {| lvl := 1 |} 250000 9 [1] 7 [[3; 4]; [5; 6]] [] /\
  returned (print_info {| lvl := 1 |} 250000 9 [0] 7 [[1; 2]] [5]) = true /\
  (length (trace (print_info {| lvl := 1 |} 250000 9 [0]%float 7 [[1; 2]]%float [5]%float)) <= 1)%nat /\
  (trace (print_info {| lvl := 1 |} 250000 9 [0] 7 [[1; 2]] [5]) <> []
   <-> lvl {| lvl := 1 |} = 1%Z /\ ((9 + 1) mod 10 = 0)%Z).
Proof.
  apply (print_info_below_level_two {| lvl := 1 |} 250000 9 [0] [1] 7
           [[1; 2]] [[3; 4]; [5; 6]] [5] []).
  discriminate.
Defined.

(** X17. At level 2 [print_info] changes numpy's print options before
    anything else, also when it then raises; it returns, after four printed
    lines, exactly when [ytrain] is not empty and [xtrain] has a row at the
    index of its largest entry; otherwise it raises after at most one
    printed line, and after none when [ytrain] or [xtrain] is empty. *)
Theorem print_info_level_two_outcome (self : print_info_obj) (elapsed i : Z)
    (x_max : point) (ymax : float) (xtrain : list point) (ytrain : list float) :
  lvl self = 2%Z ->
  let r := print_info self elapsed i x_max ymax xtrain ytrain in
  head (trace r) = Some (SetPrintOptions 4 true) /\
  (returned r = true <-> exists k, np_argmax ytrain = Some k /\ (k < length xtrain)%nat) /\
  (if returned r then length (trace r) = 5%nat else (length (trace r) <= 2)%nat) /\
  (ytrain = [] \/ xtrain = [] -> r = {| trace := [SetPrintOptions 4 true]; returned := false |}).
Proof.
  intros H r. subst r. unfold print_info. rewrite H. cbn [Z.eqb Pos.eqb].
  destruct ytrain as [|y0 ytrain'] eqn:Ey.
  { cbn. split; [reflexivity|]. split; [|split; [lia|reflexivity]].
    split; [discriminate|]. intros (k & Hk & _). discriminate. }
  rewrite <- Ey.
  assert (Hly : exists yl, last ytrain = Some yl).
  { apply last_is_Some. rewrite Ey. discriminate. }
  destruct Hly as (yl & ->).
  destruct xtrain as [|x0 xtrain'] eqn:Ex.
  { cbn. split; [reflexivity|]. split; [|split; [lia|reflexivity]].
    split; [discriminate|]. intros (k & _ & Hk). cbn in Hk. lia. }
  rewrite <- Ex.
  assert (Hlx : exists xl, last xtrain = Some xl).
  { apply last_is_Some. rewrite Ex. discriminate. }
  destruct Hlx as (xl & ->).
  assert (Ha : exists k, np_argmax ytrain = Some k).
  { rewrite Ey. eexists. reflexivity. }
  destruct Ha as (k & Ha). rewrite Ha. cbn [mbind option_bind].
  destruct (xtrain !! k) as [xb|] eqn:Hk.
  - destruct (split_time elapsed). cbn [trace returned head length].
    split; [reflexivity|]. split; [|split; [reflexivity|]].
    + split; [|reflexivity]. intros _. exists k. split; [reflexivity|].
      eapply lookup_lt_Some. exact Hk.
    + intros [?|?]; subst; discriminate.
  - cbn [trace returned head length].
    split; [reflexivity|]. split; [|split; [lia|]].
    + split; [discriminate|]. intros (k' & Hk' & Hlt).
      injection Hk' as <-. apply lookup_ge_None in Hk. lia.
    + intros [?|?]; subst; discriminate.
Qed.

Lemma print_info_level_two_outcome_witness :
  head (trace (print_info {| lvl := 2 |} 250000 9 [0] 7 [[1; 2]; [3; 4]] [5; 7]))
  = Some (SetPrintOptions 4 true) /\
  (returned (print_info {| lvl := 2 |} 250000 9 [0] 7 [[1; 2]; [3; 4]] [5; 7]) = true
   <-> exists k, np_argmax [5; 7] = Some k /\ (k < length [[1; 2]; [3; 4]]%float)%nat) /\
  (if returned (print_info {| lvl := 2 |} 250000 9 [0] 7 [[1; 2]; [3; 4]] [5; 7])
   then length (trace (print_info {| lvl := 2 |} 250000 9 [0] 7 [[1; 2]; [3; 4]] [5; 7]))
        = 5%nat
   else (length (trace (print_info {| lvl := 2 |} 250000 9 [0]%float 7
                          [[1; 2]; [3; 4]]%float [5; 7]%float))
         <= 2)%nat) /\
  ([5; 7] = [] \/ [[1; 2]; [3; 4]] = [] ->
   print_info {| lvl := 2 |} 250000 9 [0] 7 [[1; 2]; [3; 4]] [5; 7]
   = {| trace := [SetPrintOptions 4 true]; returned := false |}).
Proof.
  apply (print_info_level_two_outcome {| lvl := 2 |} 250000 9 [0] 7
           [[1; 2]; [3; 4]] [5; 7]).
  reflexivity.
Defined.

Lemma print_info_current_maximum (self : print_info_obj) (elapsed i : Z)
    (x_max : point) (ymax : float) (xtrain : list point) (ytrain : list float)
    (k : nat) (x_best : point) :
  lvl self = 2%Z -> np_argmax ytrain = Some k -> xtrain !! k = Some x_best ->
  returned (print_info self elapsed i x_max ymax xtrain ytrain) = true /\
  Print (CurrentMaximum ymax x_best)
    ∈ trace (print_info self elapsed i x_max ymax xtrain ytrain).
Proof.
  intros H Ha Hk. unfold print_info. rewrite H. cbn [Z.eqb Pos.eqb].
  assert (Hly : exists yl, last ytrain = Some yl).
  { apply last_is_Some. destruct ytrain; [discriminate|]. discriminate. }
  assert (Hlx : exists xl, last xtrain = Some xl).
  { apply last_is_Some. destruct xtrain; [discriminate|]. discriminate. }
  destruct Hly as (yl & ->). destruct Hlx as (xl & ->).
  rewrite Ha. cbn [mbind option_bind]. rewrite Hk.
  destruct (split_time elapsed). cbn [trace returned].
  split; [reflexivity|]. do 2 right. left.
Qed.

(** X18. At level 2, on training values without NaN and a position for each
    of them, the position printed as the current maximum is that of the
    largest training value, the first one among equals. *)
Theorem print_info_position_of_maximum (self : print_info_obj) (elapsed i : Z)
    (x_max : point) (ymax : float) (xtrain : list point) (ytrain : list float) :
  lvl self = 2%Z -> ytrain <> [] -> (length ytrain <= length xtrain)%nat ->
  Forall (fun y => is_nan y = false) ytrain ->
  exists (k : nat) (best : float) (x_best : point),
    ytrain !! k = Some best /\ xtrain !! k = Some x_best /\
    Print (CurrentMaximum ymax x_best)
      ∈ trace (print_info self elapsed i x_max ymax xtrain ytrain) /\
    (forall j y, ytrain !! j = Some y -> (y <=? best) = true) /\
    (forall j y, (j < k)%nat -> ytrain !! j = Some y -> (best <=? y) = false).
Proof.
  intros H Hne Hlen Hn.
  destruct (np_argmax_maximal ytrain Hne Hn) as (k & best & Ha & Hb & Hmax & Hfirst).
  destruct (lookup_lt_is_Some_2 xtrain k) as (x_best & Hx).
  { apply lookup_lt_Some in Hb. lia. }
  exists k, best, x_best. repeat split; try assumption.
  apply (print_info_current_maximum self elapsed i x_max ymax xtrain ytrain k x_best H Ha Hx).
Qed.

Lemma print_info_position_of_maximum_witness :
  exists (k : nat) (best : float) (x_best : point),
    [5; 7; 7] !! k = Some best /\
    [[1; 2]; [3; 4]; [5; 6]] !! k = Some x_best /\
    Print (CurrentMaximum 7 x_best)
      ∈ trace (print_info {| lvl := 2 |} 250000 9 [0] 7
                 [[1; 2]; [3; 4]; [5; 6]] [5; 7; 7]) /\
    (forall j y, [5; 7; 7] !! j = Some y -> (y <=? best) = true) /\
    (forall j y, (j < k)%nat -> [5; 7; 7] !! j = Some y -> (best <=? y) = false).
Proof.
  apply (print_info_position_of_maximum {| lvl := 2 |} 250000 9 [0] 7
           [[1; 2]; [3; 4]; [5; 6]] [5; 7; 7]).
  - reflexivity.
  - discriminate.
  - cbn. lia.
  - repeat constructor.
Defined.

(** X19. At level 2, when a training value is NaN, the position printed as
    the current maximum is the position of the first NaN value. *)
Theorem print_info_nan_observation (self : print_info_obj) (elapsed i : Z)
    (x_max : point) (ymax : float) (xtrain : list point)
    (pre rest : list float) (y : float) (x_nan : point) :
  lvl self = 2%Z ->
  Forall (fun y' => is_nan y' = false) pre -> is_nan y = true ->
  xtrain !! length pre = Some x_nan ->
  Print (CurrentMaximum ymax x_nan)
    ∈ trace (print_info self elapsed i x_max ymax xtrain (pre ++ y :: rest)).
Proof.
  intros H Hpre Hy Hx.
  apply (print_info_current_maximum self elapsed i x_max ymax xtrain _ (length pre) x_nan H);
    [|exact Hx].
  apply np_argmax_first_nan; assumption.
Qed.

Lemma print_info_nan_observation_witness :
  Print (CurrentMaximum 7 [3; 4])
    ∈ trace (print_info {| lvl := 2 |} 250000 9 [0] 7
               [[1; 2]; [3; 4]; [5; 6]] ([5] ++ nan :: [9])).
Proof.
  apply (print_info_nan_observation {| lvl := 2 |} 250000 9 [0] 7
           [[1; 2]; [3; 4]; [5; 6]] [5] [9] nan [3; 4]).
  - reflexivity.
  - repeat constructor.
  - reflexivity.
  - reflexivity.
Defined.

(** X20. With [xmins], [min_max_ratio] and every training position of one
    length, [print_log] does what [print_info] does on the training positions
    mapped, coordinate by coordinate, to [xmins * 10 ** (x * min_max_ratio)]. *)
Theorem print_log_is_print_info_on_return_log (pow10 : float -> float)
    (self : print_info_obj) (elapsed i : Z) (x_max xmins ratio : point)
    (ymax : float) (xtrain : list point) (ytrain : list float) :
  Forall (fun x => length x = length xmins) xtrain ->
  length ratio = length xmins ->
  print_log pow10 self elapsed i x_max xmins ratio ymax xtrain ytrain
  = print_info self elapsed i x_max ymax
      (map (fun x => zip_with mul xmins (map pow10 (zip_with mul x ratio))) xtrain)
      ytrain.
Proof.
  intros Hx Hr. unfold print_log, print_info.
  assert (Hrl : forall o : option point, (exists k, o = xtrain !! k) ->
            (x ← o; return_log pow10 xmins ratio x)
            = (fun x => zip_with mul xmins (map pow10 (zip_with mul x ratio))) <$> o).
  { intros o (k & ->). destruct (xtrain !! k) as [x|] eqn:E; [|reflexivity].
    cbn. apply return_log_eval; [|exact Hr].
    rewrite Forall_forall in Hx. apply Hx. eapply list_elem_of_lookup_2. exact E. }
  rewrite Hrl by (exists (pred (length xtrain)); apply last_lookup).
  rewrite fmap_last.
  replace (k ← np_argmax ytrain; x ← xtrain !! k; return_log pow10 xmins ratio x)
    with (k ← np_argmax ytrain;
          map (fun x => zip_with mul xmins (map pow10 (zip_with mul x ratio))) xtrain !! k).
  { reflexivity. }
  destruct (np_argmax ytrain) as [k|]; [|reflexivity]. cbn [mbind option_bind].
  rewrite list_lookup_fmap. symmetry. apply Hrl. exists k. reflexivity.
Qed.

Lemma print_log_is_print_info_on_return_log_witness :
  print_log (fun y => y) {| lvl := 2 |} 250000 9 [0] [1; 1] [2; 2] 7
    [[1; 2]; [3; 4]] [5; 7]
  = print_info {| lvl := 2 |} 250000 9 [0] 7
      (map (fun x => zip_with mul [1; 1] (map (fun y => y) (zip_with mul x [2; 2])))
         [[1; 2]; [3; 4]])
      [5; 7].
Proof.
  apply (print_log_is_print_info_on_return_log (fun y => y) {| lvl := 2 |} 250000 9
           [0] [1; 1] [2; 2] 7 [[1; 2]; [3; 4]] [5; 7]).
  - repeat constructor.
  - reflexivity.
Defined.
